(** * Personal finance agent: extraction, classification, ledger, analytics

    A shallow embedding of [finance_agent.py].  Python values are modelled as
    follows.

    - A [str] is a sequence of Unicode code points ([list N]); the pipeline
      only searches, slices and concatenates text, so nothing else is needed.
    - The interpreter's Unicode tables ([\d], [\s], [str.lower]) and its
      number arithmetic (the [int] 0, [+], [>], [>=], [float(...)]) are the
      interfaces [Unicode], [Num] and [FloatConv]; the program is written
      once over them and run on the instances at the end of the definitions.
    - A [dict] keeps insertion order, so it is an association list; a [dict]
      used as a record of optional keys is a record of [option]s.
    - The logger's [list] is a mutable object reachable through several
      handles, so it lives in a store and is named by a reference.
    - [datetime.now()] is an oracle indexed by the number of clock reads.
    - [sys.stdout] is a UTF-8 text stream with the default error handler:
      what [print] writes is not kept, whether the write succeeds is. *)

From Stdlib Require Import String Ascii.
From Stdlib Require Import List Bool Arith NArith ZArith Lia.
From Stdlib Require Import Floats SpecFloat DecimalNat.
Import ListNotations.

Set Implicit Arguments.

(** ** Text *)

Definition char := N.
Definition str := list char.

(** An ASCII literal of the source as a [str]. *)
Definition lit (s : string) : str :=
  map N_of_ascii (list_ascii_of_string s).

Fixpoint str_eqb (a b : str) : bool :=
  match a, b with
  | [], [] => true
  | x :: a', y :: b' => N.eqb x y && str_eqb a' b'
  | _, _ => false
  end.

(** [s.startswith(p)], returning what follows the prefix. *)
Fixpoint strip_prefix (p s : str) : option str :=
  match p, s with
  | [], _ => Some s
  | x :: p', y :: s' => if N.eqb x y then strip_prefix p' s' else None
  | _ :: _, [] => None
  end.

(** [needle in hay] on strings. *)
Fixpoint contains (needle hay : str) : bool :=
  match strip_prefix needle hay with
  | Some _ => true
  | None => match hay with
            | [] => false
            | _ :: hay' => contains needle hay'
            end
  end.

(** [str(n)] for a non-negative [int]. *)
Fixpoint digits_of_uint (d : Decimal.uint) : str :=
  match d with
  | Decimal.Nil => []
  | Decimal.D0 d' => 48%N :: digits_of_uint d'
  | Decimal.D1 d' => 49%N :: digits_of_uint d'
  | Decimal.D2 d' => 50%N :: digits_of_uint d'
  | Decimal.D3 d' => 51%N :: digits_of_uint d'
  | Decimal.D4 d' => 52%N :: digits_of_uint d'
  | Decimal.D5 d' => 53%N :: digits_of_uint d'
  | Decimal.D6 d' => 54%N :: digits_of_uint d'
  | Decimal.D7 d' => 55%N :: digits_of_uint d'
  | Decimal.D8 d' => 56%N :: digits_of_uint d'
  | Decimal.D9 d' => 57%N :: digits_of_uint d'
  end.

Definition str_of_nat (n : nat) : str := digits_of_uint (Nat.to_uint n).

(** ** The interpreter's interfaces *)

(** Character classes of [re] on [str] patterns and [str.lower]. *)
Class Unicode := {
  isdigit : char -> bool;   (* \d *)
  isspace : char -> bool;   (* \s *)
  lower : str -> str        (* str.lower() *)
}.

(** Numbers: the [int] literal 0, the operators the program applies to
    amounts and the builtin [sum].  What [sum] returns on floats is the
    interpreter's choice: CPython before 3.12 applies [+] from left to
    right, CPython from 3.12 on carries a compensation term. *)
Class Num (A : Type) := {
  zero : A;
  add : A -> A -> A;        (* x + y *)
  gtb : A -> A -> bool;     (* x > y *)
  geb : A -> A -> bool;     (* x >= y *)
  sum : list A -> A         (* sum(xs) *)
}.

(** [float(s)]. *)
Class FloatConv (A : Type) := {
  float : str -> A
}.

(** ** Custom tools *)

(** The dict handed from stage to stage.  Only the six keys the pipeline
    reads are represented; an absent key is [None]. *)
Module ExpenseDict.
Record t (A : Type) := Build {
  amount : option A;
  currency : option str;
  description : option str;
  raw_input : option str;
  parsed_at : option str;
  category : option str
}.
Arguments Build {A}.

(** [d['category'] = c] *)
Definition set_category {A} (c : str) (d : t A) : t A :=
  Build (amount d) (currency d) (description d) (raw_input d)
        (parsed_at d) (Some c).
End ExpenseDict.

Module ExpenseParserTool.

(** The currency literals exactly as the source file stores them.  The
    rupee literal is the three code points U+00E2 U+201A U+00B9 (bytes
    [c3 a2 e2 80 9a c2 b9] in the file). *)
Definition RUPEE : str := [226; 8218; 185]%N.
Definition DOLLAR : str := [36]%N.
Definition DOT : char := 46%N.

Section Parse.
Context {U : Unicode} {A : Type} {NA : Num A} {FA : FloatConv A}.

(** [\d+], greedy: the longest run of digits and the rest. *)
Fixpoint span_digits (s : str) : str * str :=
  match s with
  | c :: s' =>
      if isdigit c
      then let (ds, rest) := span_digits s' in (c :: ds, rest)
      else ([], s)
  | [] => ([], [])
  end.

(** [(?:\.\d{2})?], greedy: what the optional group consumes. *)
Definition opt_fraction (s : str) : str :=
  match s with
  | d :: a :: b :: _ =>
      if N.eqb d DOT && isdigit a && isdigit b then [d; a; b] else []
  | _ => []
  end.

(** [(\d+(?:\.\d{2})?)] anchored at the head of [s]: group 1. *)
Definition match_numeral (s : str) : option str :=
  let (ds, rest) := span_digits s in
  match ds with
  | [] => None
  | _ :: _ => Some (ds ++ opt_fraction rest)
  end.

(** [\s*(\d+(?:\.\d{2})?)] anchored at the head of [s]: the greedy star
    takes one more blank first and gives it back if the rest fails. *)
Fixpoint match_ws_numeral (s : str) : option str :=
  match s with
  | c :: s' =>
      if isspace c
      then match match_ws_numeral s' with
           | Some g => Some g
           | None => match_numeral s
           end
      else match_numeral s
  | [] => None
  end.

(** [SYM\s*(\d+(?:\.\d{2})?)] anchored at the head of [s]. *)
Definition match_symbol (sym s : str) : option str :=
  match strip_prefix sym s with
  | Some rest => match_ws_numeral rest
  | None => None
  end.

(** [re.search]: the match at the leftmost position that has one. *)
Fixpoint search (m : str -> option str) (text : str) : option str :=
  match m text with
  | Some g => Some g
  | None => match text with
            | [] => None
            | _ :: text' => search m text'
            end
  end.

Definition parse (text : str) (now : str) : ExpenseDict.t A :=
  let rupee_match := search (match_symbol RUPEE) text in
  let dollar_match := search (match_symbol DOLLAR) text in
  let '(amount, currency) :=
    match rupee_match with
    | Some g => (float g, RUPEE)
    | None =>
        match dollar_match with
        | Some g => (float g, DOLLAR)
        | None =>
            match search match_numeral text with
            | Some g => (float g, RUPEE)
            | None => (zero, RUPEE)
            end
        end
    end in
  ExpenseDict.Build (Some amount) (Some currency) (Some text) (Some text)
                    (Some now) None.
End Parse.
End ExpenseParserTool.

Module CategoryClassifierTool.

Definition categories : list (str * list str) :=
  [ (lit "food",
     map lit ["grocery"; "groceries"; "restaurant"; "cafe"; "coffee";
              "lunch"; "dinner"; "breakfast"; "food"; "meal"; "eating";
              "dmart"; "reliance"; "bigbasket"; "swiggy"; "zomato";
              "biryani"; "chai"; "tea"; "snack"]%string);
    (lit "transportation",
     map lit ["uber"; "lyft"; "gas"; "fuel"; "parking"; "taxi";
              "metro"; "bus"; "train"; "travel"; "trip"; "flight";
              "car"; "vehicle"; "commute"; "auto"; "rickshaw";
              "ola"; "rapido"; "petrol"; "diesel"]%string);
    (lit "entertainment",
     map lit ["movie"; "cinema"; "netflix"; "spotify"; "game";
              "concert"; "theater"; "fun"; "entertainment";
              "hotstar"; "prime"; "pvr"; "inox"; "gaming"]%string);
    (lit "utilities",
     map lit ["electric"; "electricity"; "water"; "internet"; "phone";
              "mobile"; "bill"; "utility"; "broadband"; "wifi";
              "jio"; "airtel"; "vi"; "bsnl"; "gas"; "lpg"]%string);
    (lit "shopping",
     map lit ["amazon"; "mall"; "store"; "shop"; "clothing"; "clothes";
              "purchase"; "bought"; "flipkart"; "myntra"; "ajio"; "meesho";
              "shopping"; "shirt"; "shoes"]%string);
    (lit "healthcare",
     map lit ["doctor"; "pharmacy"; "medicine"; "hospital"; "clinic";
              "medical"; "health"; "apollo"; "fortis"; "prescription"]%string);
    (lit "other", []) ].

Section Classify.
Context {U : Unicode}.

(** [any(keyword in description_lower for keyword in keywords)] *)
Definition any_keyword (keywords : list str) (description_lower : str)
  : bool :=
  existsb (fun keyword => contains keyword description_lower) keywords.

(** The loop over [categories.items()], returning at the first hit. *)
Fixpoint first_match (cats : list (str * list str))
         (description_lower : str) : option str :=
  match cats with
  | [] => None
  | (category, keywords) :: cats' =>
      if any_keyword keywords description_lower
      then Some category
      else first_match cats' description_lower
  end.

Definition classify (description : str) : str :=
  let description_lower := lower description in
  match first_match categories description_lower with
  | Some category => category
  | None => lit "other"
  end.
End Classify.
End CategoryClassifierTool.

(** ** State management *)

(** An insertion-ordered [dict] with [str] keys. *)
Section Dict.
Context {V : Type}.

(** [d.get(k, default)] *)
Fixpoint dict_get (d : list (str * V)) (k : str) (default : V) : V :=
  match d with
  | [] => default
  | (k', v) :: d' => if str_eqb k k' then v else dict_get d' k default
  end.

(** [d[k] = v]: an existing key keeps its position, a new one goes last. *)
Fixpoint dict_set (d : list (str * V)) (k : str) (v : V) : list (str * V) :=
  match d with
  | [] => [(k, v)]
  | (k', v') :: d' =>
      if str_eqb k k' then (k', v) :: d' else (k', v') :: dict_set d' k v
  end.
End Dict.

Module Expense.
Record t (A : Type) := Build {
  id : str;
  amount : A;
  currency : str;
  description : str;
  category : str;
  timestamp : str;
  raw_input : str
}.
End Expense.

Module SessionState.
Record t (A : Type) := Build {
  session_id : str;
  expenses : list (Expense.t A);
  created_at : str
}.

Section Methods.
Context {A : Type} {NA : Num A}.

Definition init (session_id now : str) : t A := Build session_id [] now.

Definition add_expense (self : t A) (expense : Expense.t A) : t A :=
  Build (session_id self) (expenses self ++ [expense]) (created_at self).

Definition get_total (self : t A) : A :=
  sum (map (@Expense.amount A) (expenses self)).

Definition get_category_totals (self : t A) : list (str * A) :=
  fold_left
    (fun totals expense =>
       let category := Expense.category expense in
       dict_set totals category
                (add (dict_get totals category zero)
                     (Expense.amount expense)))
    (expenses self) [].

Definition get_expense_count (self : t A) : nat :=
  length (expenses self).
End Methods.
End SessionState.

(** ** Observability *)

Module Insights.
Record t (A : Type) := Build {
  total_spending : A;
  expense_count : nat;
  category_breakdown : list (str * A);
  top_category : str * A            (* name, amount *)
}.
End Insights.

Inductive event_type := start | processing | success | error | info | warning.

(** The [data] payloads the agents log, as they are when logged (the parsed
    dict is the object the classifier later adds ['category'] to; no
    statement below reads a payload); [NoData] is [data or {}] for a call
    without data. *)
Inductive event_data (A : Type) :=
| NoData
| ParsedData (d : ExpenseDict.t A)
| CategoryData (c : str)
| InsightsData (i : Insights.t A).
Arguments NoData {A}.
Arguments CategoryData {A}.

Module Event.
Record t (A : Type) := Build {
  timestamp : str;
  agent : str;
  kind : event_type;
  message : str;
  data : event_data A
}.
End Event.

(** Mutable list objects: a reference names a cell of the store, and every
    holder of the reference sees the same cell. *)
Module Store.
Definition ref := nat.
Definition t (X : Type) := list (list X).

Section Ops.
Context {X : Type}.

(** A new empty list object. *)
Definition alloc (h : t X) : ref * t X := (length h, h ++ [[]]).

Definition deref (h : t X) (r : ref) : list X := nth r h [].

(** Replace the contents of cell [r]. *)
Fixpoint assign (h : t X) (r : ref) (l : list X) : t X :=
  match h, r with
  | [], _ => []
  | _ :: h', O => l :: h'
  | c :: h', S r' => c :: assign h' r' l
  end.

(** [r.append(x)] *)
Definition append (h : t X) (r : ref) (x : X) : t X :=
  assign h r (deref h r ++ [x]).

(** [r.clear()] *)
Definition clear (h : t X) (r : ref) : t X := assign h r [].
End Ops.
End Store.

(** [datetime.now()] rendered by [isoformat()] and by
    [strftime('%Y%m%d_%H%M%S')], at the n-th read of the clock. *)
Class Clock := {
  isoformat_now : nat -> str;
  strftime_now : nat -> str
}.

(** Everything the pipeline can change: the list objects, the session it
    owns and the number of clock reads so far. *)
Module World.
Record t (A : Type) := Build {
  store : Store.t (Event.t A);
  session : SessionState.t A;
  ticks : nat
}.
End World.

(** The keys the stages subscript, and the exception a missing one raises. *)
Inductive key :=
| k_amount | k_currency | k_description | k_category | k_parsed_at
| k_raw_input.

Definition key_name (k : key) : str :=
  match k with
  | k_amount => lit "amount"
  | k_currency => lit "currency"
  | k_description => lit "description"
  | k_category => lit "category"
  | k_parsed_at => lit "parsed_at"
  | k_raw_input => lit "raw_input"
  end.

(** A surrogate code point, U+D800 to U+DFFF: the one kind of code point
    of a [str] that UTF-8 cannot encode. *)
Definition surrogate (c : char) : bool := N.leb 55296 c && N.leb c 57343.

(** The text can be written to [sys.stdout]. *)
Definition encodable (s : str) : bool :=
  forallb (fun c => negb (surrogate c)) s.

(** [KeyError(k)], and the [UnicodeEncodeError] of the UTF-8 encoder, which
    keeps the text it was given. *)
Inductive exn :=
| KeyError (k : key)
| UnicodeEncodeError (object : str).

(** The lower-case hexadecimal digit of a value below 16. *)
Definition hex_digit (n : N) : char :=
  if N.ltb n 10 then (48 + n)%N else (87 + n)%N.

(** [%04x] of a code point below U+10000. *)
Definition hex4 (c : char) : str :=
  [hex_digit (c / 4096 mod 16); hex_digit (c / 256 mod 16);
   hex_digit (c / 16 mod 16); hex_digit (c mod 16)]%N.

(** The encoder reports the first run of surrogates: the text before it
    and the run. *)
Fixpoint span_surrogates (s : str) : str :=
  match s with
  | c :: s' => if surrogate c then c :: span_surrogates s' else []
  | [] => []
  end.

Fixpoint first_surrogates (s : str) : str * str :=
  match s with
  | c :: s' =>
      if surrogate c then ([], span_surrogates s)
      else let (before, run) := first_surrogates s' in (c :: before, run)
  | [] => ([], [])
  end.

(** [str(e)]: a [KeyError] prints the [repr] of its key, a
    [UnicodeEncodeError] the position of what could not be encoded. *)
Definition str_exn (e : exn) : str :=
  match e with
  | KeyError k => lit "'" ++ key_name k ++ lit "'"
  | UnicodeEncodeError object =>
      let (before, run) := first_surrogates object in
      let start := length before in
      match run with
      | [c] =>
          lit "'utf-8' codec can't encode character '\u" ++ hex4 c
          ++ lit "' in position " ++ str_of_nat start
          ++ lit ": surrogates not allowed"
      | _ =>
          lit "'utf-8' codec can't encode characters in position "
          ++ str_of_nat start ++ lit "-"
          ++ str_of_nat (start + length run - 1)
          ++ lit ": surrogates not allowed"
      end
  end.

Inductive outcome (X : Type) :=
| Return (x : X)
| Raise (e : exn).
Arguments Raise {X}.

(** Computations over the world that return or raise. *)
Section Monad.
Context {A : Type}.

Definition M (X : Type) := World.t A -> outcome X * World.t A.

Definition ret {X} (x : X) : M X := fun w => (Return x, w).

Definition raise {X} (e : exn) : M X := fun w => (Raise e, w).

Definition bind {X Y} (m : M X) (k : X -> M Y) : M Y :=
  fun w =>
    match m w with
    | (Return x, w') => k x w'
    | (Raise e, w') => (Raise e, w')
    end.

(** [try: m  except Exception as e: handler e] *)
Definition try_except {X} (m : M X) (handler : exn -> M X) : M X :=
  fun w =>
    match m w with
    | (Return x, w') => (Return x, w')
    | (Raise e, w') => handler e w'
    end.

(** [d[k]] on a stage dict. *)
Definition getitem {X} (field : option X) (k : key) : M X :=
  match field with
  | Some x => ret x
  | None => raise (KeyError k)
  end.

Definition tick {C : Clock} : M str :=
  fun w =>
    (Return (isoformat_now (World.ticks w)),
     World.Build (World.store w) (World.session w) (S (World.ticks w))).

Definition get_session : M (SessionState.t A) :=
  fun w => (Return (World.session w), w).

Definition put_session (s : SessionState.t A) : M unit :=
  fun w => (Return tt, World.Build (World.store w) s (World.ticks w)).

(** [print(s)]: the encoder of [sys.stdout] raises on a text it cannot
    encode; nothing else about the console is kept. *)
Definition print (s : str) : M unit :=
  if encodable s then ret tt else raise (UnicodeEncodeError s).
End Monad.
Arguments M : clear implicits.

Declare Scope py_scope.
Delimit Scope py_scope with py.
Notation "x <- m ;; k" := (bind m (fun x => k))
  (at level 61, m at next level, right associativity) : py_scope.
Notation "m ;; k" := (bind m (fun _ => k))
  (at level 61, right associativity) : py_scope.
Open Scope py_scope.

Module AgentLogger.
Record t := Build { logs : Store.ref }.

Section Methods.
Context {A : Type} {C : Clock}.

(** The prefixes of the console lines, as the source file stores them. *)
Definition _get_emoji (kind : event_type) : str :=
  match kind with
  | start => [287; 376; 353; 8364]
  | processing => [226; 353; 8482; 239; 184]
  | success => [226; 339; 8230]
  | error => [226; 338]
  | info => [226; 8222; 185; 239; 184]
  | warning => [226; 353; 160; 239; 184]
  end%N.

(** [self.logs.append(log_entry)] *)
Definition append_entry (self : t) (log_entry : Event.t A) : M A unit :=
  fun w : World.t A =>
    (Return tt,
     World.Build (Store.append (World.store w) (logs self) log_entry)
                 (World.session w) (World.ticks w)).

(** The entry is appended first, then the line is printed.  The second
    line, printed when there is data, is [json.dumps] of it, which escapes
    every code point beyond ASCII: that write always succeeds. *)
Definition log (self : t) (agent_name : str) (kind : event_type)
           (message : str) (data : event_data A) : M A unit :=
  now <- tick ;;
  let log_entry := Event.Build now agent_name kind message data in
  append_entry self log_entry ;;
  let emoji := _get_emoji kind in
  print (emoji ++ lit " [" ++ agent_name ++ lit "] " ++ message).

(** [return self.logs]: the list object itself. *)
Definition get_logs (self : t) : Store.ref := logs self.
End Methods.
End AgentLogger.

(** ** The agents *)

(** An agent's name is the constant its class passes to [Agent.__init__];
    all the pipeline needs of it is that it can be written to the console,
    which the record keeps. *)
Module Agent.
Record t := Build {
  name : str;
  logger : AgentLogger.t;
  name_encodable : encodable name = true
}.
Arguments Build name logger name_encodable : clear implicits.
End Agent.

Module InputParserAgent.
Definition init (logger : AgentLogger.t) : Agent.t :=
  Agent.Build (lit "InputParserAgent") logger eq_refl.

Section Methods.
Context {U : Unicode} {A : Type} {NA : Num A} {FA : FloatConv A}
        {C : Clock}.

Definition execute (self : Agent.t) (raw_input : str)
  : M A (ExpenseDict.t A) :=
  AgentLogger.log (Agent.logger self) (Agent.name self) start
                  (lit "Parsing input: " ++ raw_input) NoData ;;
  try_except
    (now <- tick ;;
     let parsed_data := ExpenseParserTool.parse raw_input now in
     AgentLogger.log (Agent.logger self) (Agent.name self) success
                     (lit "Successfully parsed expense")
                     (ParsedData parsed_data) ;;
     ret parsed_data)
    (fun e =>
       AgentLogger.log (Agent.logger self) (Agent.name self) error
                       (lit "Failed to parse: " ++ str_exn e) NoData ;;
       raise e).
End Methods.
End InputParserAgent.

Module CategoryClassifierAgent.
Definition init (logger : AgentLogger.t) : Agent.t :=
  Agent.Build (lit "CategoryClassifierAgent") logger eq_refl.

Section Methods.
Context {U : Unicode} {A : Type} {C : Clock}.

Definition execute (self : Agent.t) (parsed_expense : ExpenseDict.t A)
  : M A (ExpenseDict.t A) :=
  description <-
    getitem (ExpenseDict.description parsed_expense) k_description ;;
  AgentLogger.log (Agent.logger self) (Agent.name self) start
                  (lit "Classifying: " ++ description) NoData ;;
  try_except
    (let category := CategoryClassifierTool.classify description in
     let parsed_expense :=
       ExpenseDict.set_category category parsed_expense in
     AgentLogger.log (Agent.logger self) (Agent.name self) success
                     (lit "Classified as: " ++ category)
                     (CategoryData category) ;;
     ret parsed_expense)
    (fun e =>
       AgentLogger.log (Agent.logger self) (Agent.name self) error
                       (lit "Classification failed: " ++ str_exn e)
                       NoData ;;
       raise e).
End Methods.
End CategoryClassifierAgent.

Module BudgetAnalyzerAgent.
Definition init (logger : AgentLogger.t) : Agent.t :=
  Agent.Build (lit "BudgetAnalyzerAgent") logger eq_refl.

Module Result.
Record t (A : Type) := Build {
  expense : Expense.t A;
  insights : Insights.t A
}.
End Result.

Section Methods.
Context {A : Type} {NA : Num A} {C : Clock}.

(** [max(items, key=lambda x: x[1])]: a later item replaces the current
    one only when its key is strictly greater. *)
Fixpoint max_by_value (best : str * A) (items : list (str * A))
  : str * A :=
  match items with
  | [] => best
  | item :: items' =>
      max_by_value (if gtb (snd item) (snd best) then item else best)
                   items'
  end.

Definition _generate_insights (session_state : SessionState.t A)
  : Insights.t A :=
  let total := SessionState.get_total session_state in
  let category_totals :=
    SessionState.get_category_totals session_state in
  let expense_count := SessionState.get_expense_count session_state in
  let top_category :=
    match category_totals with
    | item :: items => max_by_value item items
    | [] => (lit "none", zero)
    end in
  Insights.Build total expense_count category_totals top_category.

Definition execute (self : Agent.t) (classified_expense : ExpenseDict.t A)
  : M A (Result.t A) :=
  AgentLogger.log (Agent.logger self) (Agent.name self) start
                  (lit "Analyzing budget impact") NoData ;;
  try_except
    (session_state <- get_session ;;
     let id :=
       lit "exp_"
       ++ str_of_nat
            (length (SessionState.expenses session_state) + 1) in
     amount <- getitem (ExpenseDict.amount classified_expense) k_amount ;;
     currency <-
       getitem (ExpenseDict.currency classified_expense) k_currency ;;
     description <-
       getitem (ExpenseDict.description classified_expense)
               k_description ;;
     category <-
       getitem (ExpenseDict.category classified_expense) k_category ;;
     timestamp <-
       getitem (ExpenseDict.parsed_at classified_expense) k_parsed_at ;;
     raw_input <-
       getitem (ExpenseDict.raw_input classified_expense) k_raw_input ;;
     let expense :=
       Expense.Build id amount currency description category timestamp
                     raw_input in
     put_session (SessionState.add_expense session_state expense) ;;
     session_state <- get_session ;;
     let insights := _generate_insights session_state in
     AgentLogger.log (Agent.logger self) (Agent.name self) success
                     (lit "Analysis complete") (InsightsData insights) ;;
     ret (Result.Build expense insights))
    (fun e =>
       AgentLogger.log (Agent.logger self) (Agent.name self) error
                       (lit "Analysis failed: " ++ str_exn e) NoData ;;
       raise e).
End Methods.
End BudgetAnalyzerAgent.

(** ** Orchestration *)

Module PersonalFinanceAgentSystem.
Record t := Build {
  logger : AgentLogger.t;
  parser_agent : Agent.t;
  classifier_agent : Agent.t;
  analyzer_agent : Agent.t
}.

Module Summary.
Record t (A : Type) := Build {
  session_id : str;
  created_at : str;
  total_expenses : nat;
  total_spending : A;
  category_breakdown : list (str * A);
  all_expenses : list (Expense.t A)
}.
End Summary.

(** The characters of the banner: a line feed and ['=']. *)
Definition lit_newline : str := [10]%N.
Definition EQUALS : char := 61%N.

Section Methods.
Context {U : Unicode} {A : Type} {NA : Num A} {FA : FloatConv A}
        {C : Clock}.

(** [__init__]: the logger's list is the first object allocated, the
    session takes the first two clock reads. *)
Definition init : t * World.t A :=
  let (logs, store) := Store.alloc [] in
  let logger := AgentLogger.Build logs in
  let session_state :=
    SessionState.init (lit "session_" ++ strftime_now 0)
                      (isoformat_now 1) in
  (Build logger (InputParserAgent.init logger)
         (CategoryClassifierAgent.init logger)
         (BudgetAnalyzerAgent.init logger),
   World.Build store session_state 2).

Definition process_expense (self : t) (raw_input : str)
  : M A (BudgetAnalyzerAgent.Result.t A) :=
  print (lit_newline ++ repeat EQUALS 60) ;;
  print (lit "Processing: " ++ raw_input) ;;
  print (repeat EQUALS 60) ;;
  try_except
    (parsed_data <-
       InputParserAgent.execute (parser_agent self) raw_input ;;
     classified_data <-
       CategoryClassifierAgent.execute (classifier_agent self)
                                       parsed_data ;;
     BudgetAnalyzerAgent.execute (analyzer_agent self) classified_data)
    (fun e =>
       AgentLogger.log (logger self) (lit "System") error
                       (lit "Pipeline failed: " ++ str_exn e) NoData ;;
       raise e).

Definition get_summary (w : World.t A) : Summary.t A :=
  let session_state := World.session w in
  Summary.Build (SessionState.session_id session_state)
                (SessionState.created_at session_state)
                (SessionState.get_expense_count session_state)
                (SessionState.get_total session_state)
                (SessionState.get_category_totals session_state)
                (SessionState.expenses session_state).

(** The world after processing the inputs one after the other, whatever
    each call returns or raises. *)
Definition run (self : t) (inputs : list str) (w : World.t A)
  : World.t A :=
  fold_left (fun w raw_input => snd (process_expense self raw_input w))
            inputs w.
End Methods.
End PersonalFinanceAgentSystem.

(** ** Vocabulary of the statements *)

Section Vocabulary.
Import ExpenseParserTool.
Context {U : Unicode}.

Definition digit (c : char) : Prop := isdigit c = true.
Definition blank (c : char) : Prop := isspace c = true.

(** The text after a numeral does not continue it. *)
Definition stops (s : str) : Prop :=
  match s with
  | c :: _ => isdigit c = false
  | [] => True
  end.

(** The text of one match of [\d+(?:\.\d{2})?]. *)
Definition decimal_numeral (g : str) : Prop :=
  exists ds frac,
    g = ds ++ frac /\ ds <> [] /\ Forall digit ds /\
    (frac = [] \/ exists a b, frac = [DOT; a; b] /\ digit a /\ digit b).

(** The text starts with a point and two digits. *)
Definition starts_with_fraction (s : str) : Prop :=
  exists a b tail, s = DOT :: a :: b :: tail /\ digit a /\ digit b.

(** [g] is what the greedy numeral pattern takes in front of [post]: all
    the digits there are, and the point with two digits when they follow. *)
Definition greedy_numeral (g post : str) : Prop :=
  exists ds frac,
    g = ds ++ frac /\ ds <> [] /\ Forall digit ds /\ stops (frac ++ post) /\
    ((exists a b, frac = [DOT; a; b] /\ digit a /\ digit b) \/
     (frac = [] /\ ~ starts_with_fraction post)).

Definition no_digit (s : str) : Prop := Forall (fun c => isdigit c = false) s.

(** The fixed label set, in declaration order. *)
Definition labels : list str :=
  map lit ["food"; "transportation"; "entertainment"; "utilities";
           "shopping"; "healthcare"; "other"]%string.

(** One of the keywords is a substring of [s]. *)
Definition keyword_occurs (keywords : list str) (s : str) : Prop :=
  exists keyword pre post, In keyword keywords /\ s = pre ++ keyword ++ post.
End Vocabulary.

Section LedgerVocabulary.
Context {A : Type} {NA : Num A} {C : Clock}.

(** [a >= 0] *)
Definition nonneg (a : A) : Prop := geb a zero = true.

(** A sequence of appends to a ledger. *)
Definition appends (ledger : SessionState.t A) (es : list (Expense.t A))
  : SessionState.t A :=
  fold_left SessionState.add_expense es ledger.

(** One iteration of the loop of [get_category_totals]. *)
Definition tally (totals : list (str * A)) (expense : Expense.t A)
  : list (str * A) :=
  dict_set totals (Expense.category expense)
           (add (dict_get totals (Expense.category expense) zero)
                (Expense.amount expense)).

(** The amounts of the records of one category, in insertion order. *)
Definition amounts_of (category : str) (es : list (Expense.t A)) : list A :=
  map (@Expense.amount A)
      (filter (fun e => str_eqb category (Expense.category e)) es).

(** The id the analyzer gives the n-th record. *)
Definition exp_id (n : nat) : str := lit "exp_" ++ str_of_nat n.

Definition digit_of_char (c : char) : option (Decimal.uint -> Decimal.uint) :=
  match c with
  | 48 => Some Decimal.D0 | 49 => Some Decimal.D1 | 50 => Some Decimal.D2
  | 51 => Some Decimal.D3 | 52 => Some Decimal.D4 | 53 => Some Decimal.D5
  | 54 => Some Decimal.D6 | 55 => Some Decimal.D7 | 56 => Some Decimal.D8
  | 57 => Some Decimal.D9 | _ => None
  end%N.

Fixpoint uint_of_digits (s : str) : option Decimal.uint :=
  match s with
  | [] => Some Decimal.Nil
  | c :: s' =>
      match digit_of_char c, uint_of_digits s' with
      | Some d, Some u => Some (d u)
      | _, _ => None
      end
  end.

(** The number an id of the form [exp_<n>] carries. *)
Definition id_number (id : str) : option nat :=
  match strip_prefix (lit "exp_") id with
  | Some ds => option_map Nat.of_uint (uint_of_digits ds)
  | None => None
  end.

(** The first key, in the order the analyzer reads them, that the dict
    lacks. *)
Definition first_missing (d : ExpenseDict.t A) : option key :=
  match ExpenseDict.amount d, ExpenseDict.currency d,
        ExpenseDict.description d, ExpenseDict.category d,
        ExpenseDict.parsed_at d, ExpenseDict.raw_input d with
  | None, _, _, _, _, _ => Some k_amount
  | _, None, _, _, _, _ => Some k_currency
  | _, _, None, _, _, _ => Some k_description
  | _, _, _, None, _, _ => Some k_category
  | _, _, _, _, None, _ => Some k_parsed_at
  | _, _, _, _, _, None => Some k_raw_input
  | _, _, _, _, _, _ => None
  end.

(** The candidate a stored record was built from. *)
Definition fields_of (e : Expense.t A) : ExpenseDict.t A :=
  ExpenseDict.Build (Some (Expense.amount e)) (Some (Expense.currency e))
                    (Some (Expense.description e))
                    (Some (Expense.raw_input e))
                    (Some (Expense.timestamp e))
                    (Some (Expense.category e)).

Definition is_complete (d : ExpenseDict.t A) : bool :=
  match first_missing d with
  | None => true
  | Some _ => false
  end.

(** The world after the analyzer has been handed the candidates one after
    the other. *)
Definition finalize_all (self : Agent.t) (ds : list (ExpenseDict.t A))
           (w : World.t A) : World.t A :=
  fold_left (fun w d => snd (BudgetAnalyzerAgent.execute self d w)) ds w.
End LedgerVocabulary.

(** ** Vocabulary of the console *)

Section ConsoleVocabulary.
Context {A : Type} {C : Clock}.

(** The line [log] prints. *)
Definition console_line (kind : event_type) (agent_name message : str)
  : str :=
  AgentLogger._get_emoji kind ++ lit " [" ++ agent_name ++ lit "] "
  ++ message.

(** The world once [log] has read the clock and appended its entry. *)
Definition logged (logger : AgentLogger.t) (agent_name : str)
           (kind : event_type) (message : str) (data : event_data A)
           (w : World.t A) : World.t A :=
  World.Build
    (Store.append (World.store w) (AgentLogger.logs logger)
                  (Event.Build (isoformat_now (World.ticks w)) agent_name
                               kind message data))
    (World.session w) (S (World.ticks w)).

(** The world after one more read of the clock. *)
Definition ticked (w : World.t A) : World.t A :=
  World.Build (World.store w) (World.session w) (S (World.ticks w)).

(** The line [process_expense] prints before it starts. *)
Definition banner (raw_input : str) : str := lit "Processing: " ++ raw_input.
End ConsoleVocabulary.

(** ** Laws of the interfaces

    What the proofs below need of the interpreter, stated once.  Exact
    numbers ([int], decimals) satisfy all of them.  Binary64 satisfies
    [StrictGt] and fails [ExactAdd] (both shown below).  [NonNegative] says
    that [float] of a numeral is not negative and that [sum] of non-negative
    amounts is not negative and does not shrink when one more is appended;
    for a [sum] that applies [+] from left to right this is the monotonicity
    of addition ([AddNonNegative], shown below to be enough), which for
    binary64 is a property of IEEE addition that is used as a law and not
    derived here. *)

(** Addition is exact, and [sum] is the plain sum. *)
Class ExactAdd (A : Type) {NA : Num A} : Prop := {
  add_assoc : forall x y z : A, add x (add y z) = add (add x y) z;
  add_comm : forall x y : A, add x y = add y x;
  add_zero_l : forall x : A, add zero x = x;
  sum_exact : forall xs : list A, sum xs = fold_left add xs zero
}.

(** [sum] applies [+] from left to right, starting from 0. *)
Class LeftToRightSum (A : Type) {NA : Num A} : Prop := {
  sum_fold : forall xs : list A, sum xs = fold_left add xs zero
}.

Class StrictGt (A : Type) {NA : Num A} : Prop := {
  gtb_irrefl : forall x : A, gtb x x = false;
  gtb_trans : forall x y z : A,
      gtb x y = true -> gtb y z = true -> gtb x z = true
}.

Class NonNegative (A : Type) {U : Unicode} {NA : Num A} {FA : FloatConv A}
  : Prop := {
  zero_nonneg : geb (zero : A) zero = true;
  float_nonneg : forall g, decimal_numeral g -> geb (float g : A) zero = true;
  sum_nonneg : forall xs : list A, Forall nonneg xs -> nonneg (sum xs);
  sum_grows : forall (xs : list A) (x : A),
      Forall nonneg xs -> nonneg x -> geb (sum (xs ++ [x])) (sum xs) = true
}.

Class AddNonNegative (A : Type) {NA : Num A} : Prop := {
  add_nonneg : forall x y : A,
      geb x zero = true -> geb y zero = true ->
      geb (add x y) x = true /\ geb (add x y) zero = true
}.

Arguments ExactAdd A {NA}.
Arguments LeftToRightSum A {NA}.
Arguments StrictGt A {NA}.
Arguments NonNegative A {U NA FA}.
Arguments AddNonNegative A {NA}.

(** ** Instances to run the program on *)

(** Basic Latin: the ASCII digits and letters with Python's full table of
    white space.  Python agrees with it on every text whose digits and
    cased letters are ASCII. *)
Module Latin.
Definition WHITESPACE : list char :=
  [9; 10; 11; 12; 13; 28; 29; 30; 31; 32; 133; 160; 5760;
   8192; 8193; 8194; 8195; 8196; 8197; 8198; 8199; 8200; 8201; 8202;
   8232; 8233; 8239; 8287; 12288]%N.

Definition ascii_digit (c : char) : bool := N.leb 48 c && N.leb c 57.

Definition whitespace (c : char) : bool := existsb (N.eqb c) WHITESPACE.

Definition lower_char (c : char) : char :=
  if N.leb 65 c && N.leb c 90 then (c + 32)%N else c.

Definition ascii_lower (s : str) : str := map lower_char s.

#[export] Instance unicode : Unicode := {|
  isdigit := ascii_digit;
  isspace := whitespace;
  lower := ascii_lower
|}.
End Latin.

(** Exact decimal amounts, counted in hundredths. *)
Module Hundredths.
Definition digit_value (c : char) : Z := Z.of_N c - 48.

Definition int_of_digits (ds : str) : Z :=
  fold_left (fun acc c => 10 * acc + digit_value c)%Z ds 0%Z.

(** The value of a numeral [ds] or [ds.ab], in hundredths. *)
Definition of_numeral (g : str) : Z :=
  let (ds, rest) := ExpenseParserTool.span_digits (U := Latin.unicode) g in
  match rest with
  | [_; a; b] =>
      (100 * int_of_digits ds + 10 * digit_value a + digit_value b)%Z
  | _ => (100 * int_of_digits ds)%Z
  end.

#[export] Instance num : Num Z := {|
  zero := 0%Z;
  add := Z.add;
  gtb := Z.gtb;
  geb := Z.geb;
  sum := fun xs => fold_left Z.add xs 0%Z
|}.

#[export] Instance conv : FloatConv Z := {| float := of_numeral |}.
End Hundredths.

(** IEEE 754 binary64, the arithmetic of Python's [float]; the [int] 0 of
    the program acts on floats as [+0.0].  [num] is CPython before 3.12,
    whose [sum] applies [+] from left to right; [compensated] is CPython
    from 3.12 on, whose [sum] uses Neumaier's compensation. *)
Module Binary64.
#[export] Instance num : Num PrimFloat.float := {|
  zero := 0%float;
  add := PrimFloat.add;
  gtb := fun x y => PrimFloat.ltb y x;
  geb := fun x y => PrimFloat.leb y x;
  sum := fun xs => fold_left PrimFloat.add xs 0%float
|}.

Definition compensated_sum (xs : list PrimFloat.float) : PrimFloat.float :=
  match xs with
  | [] => 0%float
  | x0 :: xs' =>
      let step (fc : PrimFloat.float * PrimFloat.float) (x : PrimFloat.float) :=
        let (f, c) := fc in
        let t := (f + x)%float in
        (t, if PrimFloat.leb (PrimFloat.abs x) (PrimFloat.abs f)
            then (c + ((f - t) + x))%float
            else (c + ((x - t) + f))%float) in
      let (f, c) := fold_left step xs' ((0 + x0)%float, 0%float) in
      if negb (PrimFloat.is_zero c) && PrimFloat.is_finite c
      then (f + c)%float
      else f
  end.

Definition compensated : Num PrimFloat.float := {|
  zero := 0%float;
  add := PrimFloat.add;
  gtb := fun x y => PrimFloat.ltb y x;
  geb := fun x y => PrimFloat.leb y x;
  sum := compensated_sum
|}.
End Binary64.

(** A clock whose n-th reading prints as [n]. *)
Module Counter.
#[export] Instance clock : Clock := {|
  isoformat_now := str_of_nat;
  strftime_now := str_of_nat
|}.
End Counter.

(** ** Sample inputs *)

Module Demo.
Import ExpenseParserTool.

Definition system : PersonalFinanceAgentSystem.t :=
  fst (PersonalFinanceAgentSystem.init (A := Z) (C := Counter.clock)).

Definition world0 : World.t Z :=
  snd (PersonalFinanceAgentSystem.init (A := Z) (C := Counter.clock)).

(** The first two sample expenses of [run_demo], and three more texts. *)
Definition groceries : str :=
  lit "Spent " ++ RUPEE ++ lit "500 on groceries at DMart".
Definition rickshaw : str := lit "Auto rickshaw ride " ++ RUPEE ++ lit "80".
Definition lunch : str := lit "$45 for lunch at restaurant".
Definition unspecified : str := lit "xyz unspecified item".
Definition mixed : str := lit "$5 and " ++ RUPEE ++ lit " 12.50 or 7".
Definition gas_refill : str := lit "Gas cylinder refill 950".
Definition gas_station_lunch : str := lit "Lunch at gas station".

(** The rupee sign U+20B9 itself, which is not the literal of the source,
    and two texts written with it: [mixed] again, and a plain amount. *)
Definition rupee_sign : str := [8377]%N.
Definition mixed_rupee_sign : str :=
  lit "$5 and " ++ rupee_sign ++ lit " 12.50 or 7".
Definition plain_rupee_sign : str := rupee_sign ++ lit "500".

Definition world2 : World.t Z :=
  PersonalFinanceAgentSystem.run
    (U := Latin.unicode) (NA := Hundredths.num) (FA := Hundredths.conv)
    (C := Counter.clock) system [groceries; rickshaw] world0.

(** A classified candidate, and the same without its category. *)
Definition classified : ExpenseDict.t Z :=
  ExpenseDict.Build (Some 50000%Z) (Some RUPEE) (Some groceries)
                    (Some groceries) (Some (lit "3")) (Some (lit "food")).
Definition unclassified : ExpenseDict.t Z :=
  ExpenseDict.Build (Some 50000%Z) (Some RUPEE) (Some groceries)
                    (Some groceries) (Some (lit "3")) None.

(** Three small binary64 amounts: 0.10 and 1.10 for food, 0.10 for
    transportation, as [float] reads them. *)
Definition ten_paise : PrimFloat.float := 0x1.999999999999ap-4%float.
Definition one_ten : PrimFloat.float := 0x1.199999999999ap+0%float.

Definition chai : Expense.t PrimFloat.float :=
  Expense.Build (lit "exp_1") ten_paise RUPEE (lit "chai 0.10") (lit "food")
                (lit "1") (lit "chai 0.10").
Definition bus : Expense.t PrimFloat.float :=
  Expense.Build (lit "exp_2") ten_paise RUPEE (lit "bus 0.10")
                (lit "transportation") (lit "2") (lit "bus 0.10").
Definition snack : Expense.t PrimFloat.float :=
  Expense.Build (lit "exp_3") one_ten RUPEE (lit "snack 1.10") (lit "food")
                (lit "3") (lit "snack 1.10").

Definition float_ledger : SessionState.t PrimFloat.float :=
  appends (SessionState.init (lit "session_0") (lit "1")) [chai; bus; snack].

Definition exact_ledger : SessionState.t Z :=
  appends (SessionState.init (lit "session_0") (lit "1"))
          (SessionState.expenses (World.session world2)).
End Demo.

(** ** Request boundary ([server.py]) *)

Module Server.
Record Response (A : Type) := Build {
  result : BudgetAnalyzerAgent.Result.t A;
  summary : PersonalFinanceAgentSystem.Summary.t A
}.

Section Endpoints.
Context {U : Unicode} {A : Type} {NA : Num A} {FA : FloatConv A} {C : Clock}.

(** [POST /process_expense]: the module-level [orchestrator] processes
    [data.text], then the summary is read. *)
Definition process_expense (orchestrator : PersonalFinanceAgentSystem.t)
           (text : str) : M A (Response A) :=
  result <- PersonalFinanceAgentSystem.process_expense orchestrator text ;;
  summary <-
    (fun w : World.t A =>
       (Return (PersonalFinanceAgentSystem.get_summary w), w)) ;;
  ret (Build result summary).

(** [GET /] *)
Definition root : str := lit "Finance Agent API is running!".
End Endpoints.
End Server.

(** ** Further vocabulary *)

Section MoreVocabulary.
Context {U : Unicode} {A : Type}.

(** The symbol, optional white space and a digit occur somewhere in the
    text. *)
Definition occurs_before_number (sym text : str) : Prop :=
  exists pre ws d post,
    text = pre ++ sym ++ ws ++ d :: post /\ Forall blank ws /\ digit d.

(** The distinct elements of a list, each at its first occurrence. *)
Fixpoint first_occurrences (cs : list str) : list str :=
  match cs with
  | [] => []
  | c :: cs' =>
      c :: filter (fun x => negb (str_eqb x c)) (first_occurrences cs')
  end.

(** The events of the logger's list in a world. *)
Definition events (logger : AgentLogger.t) (w : World.t A)
  : list (Event.t A) :=
  Store.deref (World.store w) (AgentLogger.get_logs logger).

(** The system [__init__] builds (its world is the second component). *)
Definition the_system {C : Clock} : PersonalFinanceAgentSystem.t :=
  fst (PersonalFinanceAgentSystem.init (A := A)).

(** Agent, kind and message of an event. *)
Definition headline (e : Event.t A) : str * event_type * str :=
  (Event.agent e, Event.kind e, Event.message e).
End MoreVocabulary.
Arguments the_system A {C}.

(** ** Further sample inputs *)

Module Samples.
Import ExpenseParserTool.

(** A bare numeral before a dollar amount. *)
Definition coffees : str := lit "2 coffees $5".

(** A numeral without any symbol, after a dollar sign that has no number. *)
Definition cafe : str := lit "paid in $ at cafe 45.50 cash".

(** The primary symbol before three decimals. *)
Definition three_decimals : str := RUPEE ++ lit " 12.345".

(** A description and a longer one around it. *)
Definition taxi : str := lit "Taxi".
Definition lunch_then : str := lit "Lunch then ".
Definition home : str := lit " home".

(** Teas for 0.10 and 0.20 in the ledger and one for 0.30 to add, in
    binary64. *)
Definition tea (id : str) (amount : PrimFloat.float)
  : Expense.t PrimFloat.float :=
  Expense.Build id amount RUPEE (lit "tea") (lit "food") (lit "1")
                (lit "tea").
Definition two_teas : SessionState.t PrimFloat.float :=
  appends (SessionState.init (lit "session_0") (lit "1"))
          [tea (lit "exp_1") 0x1.999999999999ap-4%float;
           tea (lit "exp_2") 0x1.999999999999ap-3%float].
Definition third_tea : Expense.t PrimFloat.float :=
  tea (lit "exp_3") 0x1.3333333333333p-2%float.

(** A text with a lone surrogate (U+D800), which no UTF-8 stream can
    write. *)
Definition lone_surrogate : str := lit "tea 20 " ++ [55296]%N.
End Samples.

(** * Properties *)

(** ** Text *)

Lemma str_eqb_eq (a b : str) : str_eqb a b = true <-> a = b.
Proof.
  revert b; induction a as [|x a IH]; intros [|y b]; simpl;
    try (split; [discriminate | discriminate]); try tauto.
  rewrite andb_true_iff, N.eqb_eq, IH.
  split; [intros [-> ->]; reflexivity | intros E; inversion E; auto].
Qed.

Lemma str_eqb_refl (a : str) : str_eqb a a = true.
Proof. apply str_eqb_eq; reflexivity. Qed.

Lemma str_eqb_neq (a b : str) : str_eqb a b = false <-> a <> b.
Proof.
  rewrite <- str_eqb_eq. destruct (str_eqb a b); split; congruence.
Qed.

Lemma strip_prefix_app (p s : str) : strip_prefix p (p ++ s) = Some s.
Proof.
  induction p as [|x p IH]; simpl; [reflexivity|].
  now rewrite N.eqb_refl.
Qed.

Lemma strip_prefix_Some (p s r : str) :
  strip_prefix p s = Some r -> s = p ++ r.
Proof.
  revert s; induction p as [|x p IH]; intros s; simpl.
  - intros E; inversion E; reflexivity.
  - destruct s as [|y s]; [discriminate|].
    destruct (N.eqb x y) eqn:E; [|discriminate].
    apply N.eqb_eq in E; subst y.
    intros H; apply IH in H; now subst.
Qed.

(** [needle in hay] is the substring relation. *)
Lemma contains_iff (needle hay : str) :
  contains needle hay = true <->
  exists pre post, hay = pre ++ needle ++ post.
Proof.
  induction hay as [|c hay IH].
  - simpl. destruct (strip_prefix needle []) as [r|] eqn:E.
    + split; [intros _|reflexivity].
      apply strip_prefix_Some in E. exists [], r. exact E.
    + split; [discriminate|].
      intros (pre & post & H).
      destruct pre; [|discriminate]. simpl in H.
      rewrite H, strip_prefix_app in E. discriminate.
  - simpl. destruct (strip_prefix needle (c :: hay)) as [r|] eqn:E.
    + split; [intros _|reflexivity].
      apply strip_prefix_Some in E. exists [], r. exact E.
    + rewrite IH. split.
      * intros (pre & post & H). exists (c :: pre), post.
        simpl. now rewrite H.
      * intros (pre & post & H). destruct pre as [|c' pre].
        -- simpl in H. rewrite H, strip_prefix_app in E. discriminate.
        -- inversion H; subst. now exists pre, post.
Qed.

(** ** Console and logger *)

Section ConsoleFacts.
Context {A : Type} {C : Clock}.

Lemma encodable_app (a b : str) :
  encodable (a ++ b) = encodable a && encodable b.
Proof. apply forallb_app. Qed.

Lemma encodable_app_true (a b : str) :
  encodable a = true -> encodable b = true -> encodable (a ++ b) = true.
Proof. intros Ha Hb. now rewrite encodable_app, Ha, Hb. Qed.

(** A literal of the source written in ASCII can always be printed. *)
Lemma encodable_lit (s : string) : encodable (lit s) = true.
Proof.
  induction s as [|a s IH]; [reflexivity|].
  change (lit (String a s)) with (N_of_ascii a :: lit s).
  cbn [encodable forallb]. fold (encodable (lit s)). rewrite IH.
  rewrite andb_true_r. unfold surrogate.
  pose proof (N_ascii_bounded a) as Hb.
  destruct (N.leb_spec 55296 (N_of_ascii a)); [lia|reflexivity].
Qed.

Lemma key_error_encodable (k : key) : encodable (str_exn (KeyError k)) = true.
Proof. destruct k; reflexivity. Qed.

Lemma console_line_encodable (kind : event_type) (agent_name message : str) :
  encodable (console_line kind agent_name message)
  = encodable agent_name && encodable message.
Proof.
  unfold console_line. rewrite !encodable_app, !encodable_lit.
  now destruct kind.
Qed.

(** [log] reads the clock and appends its entry whatever happens next;
    it returns when the line can be printed and raises otherwise. *)
Lemma log_eq (self : AgentLogger.t) (agent_name : str) (kind : event_type)
      (message : str) (data : event_data A) (w : World.t A) :
  AgentLogger.log self agent_name kind message data w
  = (if encodable (console_line kind agent_name message)
     then Return tt
     else Raise (UnicodeEncodeError (console_line kind agent_name message)),
     logged self agent_name kind message data w).
Proof.
  unfold AgentLogger.log, bind, tick, AgentLogger.append_entry, print.
  fold (console_line kind agent_name message).
  now destruct (encodable (console_line kind agent_name message)).
Qed.

Lemma log_returns (self : AgentLogger.t) (agent_name : str)
      (kind : event_type) (message : str) (data : event_data A)
      (w : World.t A) :
  encodable agent_name = true -> encodable message = true ->
  AgentLogger.log self agent_name kind message data w
  = (Return tt, logged self agent_name kind message data w).
Proof.
  intros Hn Hm. now rewrite log_eq, console_line_encodable, Hn, Hm.
Qed.

Lemma log_raises (self : AgentLogger.t) (agent_name : str)
      (kind : event_type) (message : str) (data : event_data A)
      (w : World.t A) :
  encodable message = false ->
  AgentLogger.log self agent_name kind message data w
  = (Raise (UnicodeEncodeError (console_line kind agent_name message)),
     logged self agent_name kind message data w).
Proof.
  intros Hm. rewrite log_eq, console_line_encodable, Hm.
  now rewrite andb_false_r.
Qed.

Lemma print_returns (s : str) (w : World.t A) :
  encodable s = true -> print s w = (Return tt, w).
Proof. intros H. unfold print. now rewrite H. Qed.

Lemma print_raises (s : str) (w : World.t A) :
  encodable s = false -> print s w = (Raise (UnicodeEncodeError s), w).
Proof. intros H. unfold print. now rewrite H. Qed.
End ConsoleFacts.

(** Side conditions: a text that can be printed. *)
Ltac printable :=
  first [ reflexivity
        | assumption
        | apply Agent.name_encodable
        | apply encodable_lit
        | apply key_error_encodable
        | apply encodable_app_true; printable ].

(** One step of a stage: a [log] or a [print] that returns, then the
    plumbing around it. *)
Ltac play :=
  unfold bind, try_except, getitem, get_session, put_session;
  unfold ret, raise;
  repeat first
    [ rewrite log_returns by printable
    | rewrite print_returns by printable
    | progress cbn beta iota
    | progress cbn [fst snd] ].

(** ** Extractor *)

Section ExtractorFacts.
Import ExpenseParserTool.
Context {U : Unicode}.

Lemma greedy_numeral_decimal (g post : str) :
  greedy_numeral g post -> decimal_numeral g.
Proof.
  intros (ds & frac & Hg & Hne & Hds & _ & Hf).
  exists ds, frac. repeat split; auto.
  destruct Hf as [(a & b & ? & ? & ?)|[? _]]; [right|left]; eauto.
Qed.

Lemma span_digits_spec (s ds rest : str) :
  span_digits s = (ds, rest) ->
  s = ds ++ rest /\ Forall digit ds /\ stops rest.
Proof.
  revert ds rest; induction s as [|c s IH]; intros ds rest; simpl.
  - intros E; inversion E; subst. repeat split; constructor.
  - destruct (isdigit c) eqn:Hc.
    + destruct (span_digits s) as [ds' rest'].
      intros E; inversion E; subst.
      destruct (IH _ _ eq_refl) as (-> & Hd & Hs).
      split; [reflexivity|]. split; [now constructor|exact Hs].
    + intros E; inversion E; subst.
      split; [reflexivity|]. split; [constructor|exact Hc].
Qed.

Lemma span_digits_app (ds rest : str) :
  Forall digit ds -> stops rest -> span_digits (ds ++ rest) = (ds, rest).
Proof.
  intros H Hs. induction H as [|c ds Hc _ IH]; simpl.
  - destruct rest as [|c rest]; [reflexivity|]. simpl in Hs |- *.
    now rewrite Hs.
  - unfold digit in Hc. now rewrite Hc, IH.
Qed.

Lemma opt_fraction_spec (s : str) :
  (exists a b post, s = DOT :: a :: b :: post /\ digit a /\ digit b /\
                    opt_fraction s = [DOT; a; b]) \/
  opt_fraction s = [].
Proof.
  destruct s as [|d [|a [|b post]]]; simpl; auto.
  destruct (N.eqb d DOT) eqn:Hd; simpl; auto.
  destruct (isdigit a) eqn:Ha; simpl; auto.
  destruct (isdigit b) eqn:Hb; simpl; auto.
  apply N.eqb_eq in Hd; subst d. left. now exists a, b, post.
Qed.

Lemma opt_fraction_nil (s : str) :
  opt_fraction s = [] -> ~ starts_with_fraction s.
Proof.
  intros H (a & b & tail & -> & Ha & Hb). unfold opt_fraction in H.
  unfold digit in Ha, Hb. rewrite N.eqb_refl, Ha, Hb in H. discriminate.
Qed.

Lemma match_numeral_Some (s g : str) :
  match_numeral s = Some g ->
  exists post, s = g ++ post /\ greedy_numeral g post.
Proof.
  unfold match_numeral.
  destruct (span_digits s) as [ds rest] eqn:E.
  apply span_digits_spec in E. destruct E as (-> & Hds & Hstop).
  destruct ds as [|d ds]; [discriminate|].
  intros H; inversion H; subst g; clear H.
  destruct (opt_fraction_spec rest)
    as [(a & b & post & -> & Ha & Hb & Hf)|Hf]; rewrite Hf.
  - exists post. split; [simpl; now rewrite <- app_assoc|].
    exists (d :: ds), [DOT; a; b].
    split; [reflexivity|]. split; [discriminate|]. split; [exact Hds|].
    split; [exact Hstop|]. left. now exists a, b.
  - exists rest. split; [now rewrite app_nil_r|].
    exists (d :: ds), [].
    split; [simpl; now rewrite ?app_nil_r|]. split; [discriminate|]. split; [exact Hds|].
    split; [exact Hstop|]. right.
    split; [reflexivity|now apply opt_fraction_nil].
Qed.

Lemma match_numeral_digit (d : char) (s : str) :
  digit d -> exists g, match_numeral (d :: s) = Some g.
Proof.
  intros Hd. unfold match_numeral. simpl. rewrite Hd.
  destruct (span_digits s) as [ds rest]. eauto.
Qed.

Lemma match_numeral_None (s : str) : stops s -> match_numeral s = None.
Proof.
  unfold match_numeral. destruct s as [|c s]; simpl; [reflexivity|].
  intros ->. reflexivity.
Qed.

Lemma match_ws_numeral_Some (s g : str) :
  match_ws_numeral s = Some g ->
  exists ws post,
    s = ws ++ g ++ post /\ Forall blank ws /\ greedy_numeral g post.
Proof.
  revert g; induction s as [|c s IH]; intros g; simpl; [discriminate|].
  assert (Hnum : match_numeral (c :: s) = Some g ->
                 exists ws post, c :: s = ws ++ g ++ post /\
                                 Forall blank ws /\ greedy_numeral g post).
  { intros H. apply match_numeral_Some in H. destruct H as (post & H & G).
    exists [], post. repeat split; auto. }
  destruct (isspace c) eqn:Hc; [|exact Hnum].
  destruct (match_ws_numeral s) as [g'|] eqn:E; [|exact Hnum].
  intros H; inversion H; subst g'.
  destruct (IH _ eq_refl) as (ws & post & -> & Hws & G).
  exists (c :: ws), post. repeat split; auto.
Qed.

Lemma match_ws_numeral_complete (ws : str) (d : char) (post : str) :
  Forall blank ws -> digit d ->
  exists g, match_ws_numeral (ws ++ d :: post) = Some g.
Proof.
  intros Hws Hd. induction Hws as [|c ws Hc _ IH]; simpl.
  - destruct (match_numeral_digit post Hd) as [g Hg].
    destruct (isspace d); [|eauto].
    destruct (match_ws_numeral post); eauto.
  - rewrite Hc. destruct IH as [g ->]. eauto.
Qed.

Lemma match_symbol_Some (sym s g : str) :
  match_symbol sym s = Some g ->
  exists ws post,
    s = sym ++ ws ++ g ++ post /\ Forall blank ws /\ greedy_numeral g post.
Proof.
  unfold match_symbol.
  destruct (strip_prefix sym s) as [rest|] eqn:E; [|discriminate].
  apply strip_prefix_Some in E. intros H.
  apply match_ws_numeral_Some in H.
  destruct H as (ws & post & -> & Hws & G). eauto.
Qed.

Lemma match_symbol_complete (sym ws : str) (d : char) (post : str) :
  Forall blank ws -> digit d ->
  exists g, match_symbol sym (sym ++ ws ++ d :: post) = Some g.
Proof.
  intros Hws Hd. unfold match_symbol. rewrite strip_prefix_app.
  now apply match_ws_numeral_complete.
Qed.

(** [re.search] finds a match at or before any position that has one. *)
Lemma search_leftmost (m : str -> option str) (pre suf : str) :
  m suf <> None ->
  exists pre' suf' g,
    pre ++ suf = pre' ++ suf' /\ length pre' <= length pre /\
    m suf' = Some g /\ search m (pre ++ suf) = Some g.
Proof.
  intros Hm. induction pre as [|c pre IH].
  - simpl. destruct (m suf) as [g|] eqn:E; [|congruence].
    exists [], suf, g.
    split; [reflexivity|]. split; [simpl; lia|]. split; [exact E|].
    destruct suf; simpl; now rewrite E.
  - simpl. destruct (m (c :: pre ++ suf)) as [g|] eqn:E.
    + exists [], (c :: pre ++ suf), g.
      split; [reflexivity|]. split; [simpl; lia|]. now split.
    + destruct IH as (pre' & suf' & g & H1 & H2 & H3 & H4).
      exists (c :: pre'), suf', g.
      split; [simpl; now rewrite H1|]. split; [simpl; lia|].
      split; [exact H3|exact H4].
Qed.

Lemma search_None (m : str -> option str) (text : str) :
  (forall pre suf, text = pre ++ suf -> m suf = None) ->
  search m text = None.
Proof.
  induction text as [|c text IH]; intros H; simpl.
  - now rewrite (H [] [] eq_refl).
  - rewrite (H [] (c :: text) eq_refl). apply IH.
    intros pre suf ->. apply (H (c :: pre) suf). reflexivity.
Qed.

Lemma no_digit_suffix (pre suf : str) : no_digit (pre ++ suf) -> no_digit suf.
Proof. intros H. apply Forall_app in H. tauto. Qed.

Lemma no_digit_stops (s : str) : no_digit s -> stops s.
Proof. intros H; destruct H; simpl; auto. Qed.

Lemma match_ws_numeral_no_digit (s : str) :
  no_digit s -> match_ws_numeral s = None.
Proof.
  induction s as [|c s IH]; intros H; simpl; [reflexivity|].
  assert (Hn : match_numeral (c :: s) = None)
    by (apply match_numeral_None, no_digit_stops, H).
  inversion H; subst. rewrite IH by assumption. rewrite Hn.
  now destruct (isspace c).
Qed.

Lemma match_symbol_no_digit (sym s : str) :
  no_digit s -> match_symbol sym s = None.
Proof.
  intros H. unfold match_symbol.
  destruct (strip_prefix sym s) as [rest|] eqn:E; [|reflexivity].
  apply strip_prefix_Some in E; subst s.
  apply match_ws_numeral_no_digit. eapply no_digit_suffix, H.
Qed.
End ExtractorFacts.

Section ExtractorClaims.
Import ExpenseParserTool.
Context {U : Unicode} {A : Type} {NA : Num A} {FA : FloatConv A}.

Lemma parse_rupee (text now g : str) :
  search (match_symbol RUPEE) text = Some g ->
  ExpenseDict.currency (parse text now) = Some RUPEE /\
  ExpenseDict.amount (parse text now) = Some (float g : A).
Proof. intros H. unfold parse. rewrite H. simpl. auto. Qed.

Lemma parse_description (text now : str) :
  ExpenseDict.description (parse (A := A) text now) = Some text /\
  ExpenseDict.raw_input (parse (A := A) text now) = Some text.
Proof.
  unfold parse.
  destruct (search (match_symbol RUPEE) text);
    [|destruct (search (match_symbol DOLLAR) text);
      [|destruct (search match_numeral text)]]; simpl; auto.
Qed.

(** No numeral occurs in a text exactly when no digit does. *)
Lemma no_numeral_no_digit (text : str) :
  (forall pre g post, text = pre ++ g ++ post -> ~ decimal_numeral g) ->
  no_digit text.
Proof.
  intros H. apply Forall_forall. intros c Hin.
  destruct (isdigit c) eqn:Hc; [exfalso|reflexivity].
  apply in_split in Hin. destruct Hin as (pre & post & ->).
  apply (H pre [c] post eq_refl).
  exists [c], []. split; [reflexivity|]. split; [discriminate|].
  split; [now constructor|now left].
Qed.

Lemma parse_no_digit (text now : str) :
  no_digit text ->
  ExpenseDict.amount (parse text now) = Some (zero : A) /\
  ExpenseDict.currency (parse (A := A) text now) = Some RUPEE.
Proof.
  intros H.
  assert (Hsym : forall sym, search (match_symbol sym) text = None).
  { intros sym. apply search_None. intros pre suf ->.
    apply match_symbol_no_digit. eapply no_digit_suffix, H. }
  assert (Hnum : search match_numeral text = None).
  { apply search_None. intros pre suf ->.
    apply match_numeral_None, no_digit_stops. eapply no_digit_suffix, H. }
  unfold parse. rewrite !Hsym, Hnum. simpl. auto.
Qed.

(** The currency is one of the two literals of the source. *)
Lemma parse_currency (text now : str) :
  ExpenseDict.currency (parse (A := A) text now) = Some RUPEE \/
  ExpenseDict.currency (parse (A := A) text now) = Some DOLLAR.
Proof.
  unfold parse.
  destruct (search (match_symbol RUPEE) text);
    [|destruct (search (match_symbol DOLLAR) text);
      [|destruct (search match_numeral text)]]; simpl; auto.
Qed.

(** X16: when the text holds the primary literal as the source stores it,
    optional white space and a digit, [parse] returns that literal as
    currency and, as amount, [float] of the numeral that the greedy pattern
    takes after the leftmost such occurrence: all the digits there and the
    point with two digits when they follow.  Neither a dollar amount nor a
    bare numeral elsewhere in the text changes that. *)
Theorem parse_primary_symbol
        (text pre ws post : str) (d : char) (now : str) :
  text = pre ++ RUPEE ++ ws ++ d :: post ->
  Forall blank ws -> digit d ->
  exists pre' ws' g post',
    text = pre' ++ RUPEE ++ ws' ++ g ++ post' /\
    length pre' <= length pre /\
    Forall blank ws' /\
    greedy_numeral g post' /\
    ExpenseDict.currency (parse text now) = Some RUPEE /\
    ExpenseDict.amount (parse text now) = Some (float g : A).
Proof.
  intros -> Hws Hd.
  destruct (match_symbol_complete RUPEE post Hws Hd) as [g0 Hg0].
  destruct (search_leftmost (match_symbol RUPEE) pre
                            (RUPEE ++ ws ++ d :: post))
    as (pre' & suf' & g & Heq & Hlen & Hm & Hs); [congruence|].
  destruct (match_symbol_Some _ _ Hm) as (ws' & post' & -> & Hws' & Hg).
  exists pre', ws', g, post'.
  split; [exact Heq|]. split; [exact Hlen|]. split; [exact Hws'|].
  split; [exact Hg|]. now apply parse_rupee.
Qed.

(** C7: for a text in which no decimal numeral occurs, [parse] returns the
    amount 0 and the default currency symbol; for every text, description
    and raw_input are the text itself, unchanged. *)
Theorem parse_no_numeral (text now : str) :
  ((forall pre g post, text = pre ++ g ++ post -> ~ decimal_numeral g) ->
   ExpenseDict.amount (parse text now) = Some (zero : A) /\
   ExpenseDict.currency (parse (A := A) text now) = Some RUPEE) /\
  ExpenseDict.description (parse (A := A) text now) = Some text /\
  ExpenseDict.raw_input (parse (A := A) text now) = Some text.
Proof.
  split; [|apply parse_description].
  intros H. now apply parse_no_digit, no_numeral_no_digit.
Qed.
End ExtractorClaims.

(** ** Classifier *)

Section ClassifierClaims.
Import CategoryClassifierTool.
Context {U : Unicode}.

Lemma any_keyword_iff (keywords : list str) (s : str) :
  any_keyword keywords s = true <-> keyword_occurs keywords s.
Proof.
  unfold any_keyword, keyword_occurs. rewrite existsb_exists. split.
  - intros (kw & Hin & Hc). apply contains_iff in Hc.
    destruct Hc as (pre & post & ->). now exists kw, pre, post.
  - intros (kw & pre & post & Hin & ->). exists kw. split; [exact Hin|].
    apply contains_iff. now exists pre, post.
Qed.

Lemma any_keyword_false (keywords : list str) (s : str) :
  any_keyword keywords s = false <-> ~ keyword_occurs keywords s.
Proof.
  rewrite <- any_keyword_iff. destruct (any_keyword keywords s); split;
    congruence.
Qed.

Lemma first_match_In (cats : list (str * list str)) (s category : str) :
  first_match cats s = Some category -> In category (map fst cats).
Proof.
  induction cats as [|[c kws] cats IH]; simpl; [discriminate|].
  destruct (any_keyword kws s).
  - intros E; inversion E. now left.
  - intros E. right. now apply IH.
Qed.

Lemma first_match_first (pre post : list (str * list str))
      (category : str) (keywords : list str) (s : str) :
  keyword_occurs keywords s ->
  (forall p, In p pre -> ~ keyword_occurs (snd p) s) ->
  first_match (pre ++ (category, keywords) :: post) s = Some category.
Proof.
  intros Hk Hpre. induction pre as [|[c kws] pre IH]; simpl.
  - apply any_keyword_iff in Hk. now rewrite Hk.
  - assert (E : any_keyword kws s = false)
      by (apply any_keyword_false, (Hpre (c, kws)); now left).
    rewrite E. apply IH. intros p Hp. apply Hpre. now right.
Qed.

Lemma first_match_none (cats : list (str * list str)) (s : str) :
  (forall p, In p cats -> ~ keyword_occurs (snd p) s) ->
  first_match cats s = None.
Proof.
  induction cats as [|[c kws] cats IH]; intros H; simpl; [reflexivity|].
  assert (E : any_keyword kws s = false)
    by (apply any_keyword_false, (H (c, kws)); now left).
  rewrite E. apply IH. intros p Hp. apply H. now right.
Qed.

Lemma other_is_label : In (lit "other") labels.
Proof. unfold labels. apply in_map. simpl. tauto. Qed.


(** The first two iterations of the loop. *)
Lemma first_match_head (s : str) :
  first_match categories s =
  if any_keyword (dict_get categories (lit "food") []) s
  then Some (lit "food")
  else if any_keyword (dict_get categories (lit "transportation") []) s
       then Some (lit "transportation")
       else first_match (skipn 2 categories) s.
Proof. reflexivity. Qed.

(** C9 as amended: ['gas'] is a keyword of both transportation and
    utilities; a description whose lower-cased text contains ['gas'] is
    classified as food when a food keyword occurs in it too and as
    transportation otherwise, and never as utilities. *)
Theorem gas_never_utilities (description : str) :
  keyword_occurs [lit "gas"] (lower description) ->
  In (lit "gas") (dict_get categories (lit "transportation") []) /\
  In (lit "gas") (dict_get categories (lit "utilities") []) /\
  ((keyword_occurs (dict_get categories (lit "food") []) (lower description)
    /\ classify description = lit "food") \/
   (~ keyword_occurs (dict_get categories (lit "food") []) (lower description)
    /\ classify description = lit "transportation")) /\
  classify description <> lit "utilities".
Proof.
  intros (kw & pre & post & [<-|[]] & Hs).
  assert (Ht : In (lit "gas") (dict_get categories (lit "transportation") []))
    by (apply in_map; simpl; tauto).
  assert (Hu : In (lit "gas") (dict_get categories (lit "utilities") []))
    by (apply in_map; simpl; tauto).
  assert (Hgas : keyword_occurs
                   (dict_get categories (lit "transportation") [])
                   (lower description)) by now exists (lit "gas"), pre, post.
  apply any_keyword_iff in Hgas.
  assert (Hcases :
    (keyword_occurs (dict_get categories (lit "food") []) (lower description)
     /\ classify description = lit "food") \/
    (~ keyword_occurs (dict_get categories (lit "food") [])
       (lower description)
     /\ classify description = lit "transportation")).
  { destruct (any_keyword (dict_get categories (lit "food") [])
                          (lower description)) eqn:Hf.
    - left. split; [now apply any_keyword_iff|].
      unfold classify. now rewrite first_match_head, Hf.
    - right. split; [now apply any_keyword_false|].
      unfold classify. now rewrite first_match_head, Hf, Hgas. }
  split; [exact Ht|]. split; [exact Hu|]. split; [exact Hcases|].
  destruct Hcases as [[_ ->]|[_ ->]]; intros E; vm_compute in E;
    discriminate.
Qed.
End ClassifierClaims.

(** ** Ledger *)

Section DictFacts.
Context {V : Type}.

Lemma dict_get_set (d : list (str * V)) (k c : str) (v default : V) :
  dict_get (dict_set d k v) c default =
  if str_eqb c k then v else dict_get d c default.
Proof.
  induction d as [|[k' v'] d IH]; simpl; [reflexivity|].
  destruct (str_eqb k k') eqn:Ek; simpl.
  - apply str_eqb_eq in Ek; subst k'. now destruct (str_eqb c k).
  - rewrite IH. destruct (str_eqb c k) eqn:Ec; [|reflexivity].
    apply str_eqb_eq in Ec; subst c. now rewrite Ek.
Qed.

Lemma dict_set_keys_In (d : list (str * V)) (k c : str) (v : V) :
  In c (map fst (dict_set d k v)) <-> In c (map fst d) \/ c = k.
Proof.
  induction d as [|[k' v'] d IH]; simpl.
  - split; [intros [<-|[]]; now right | intros [[]| ->]; now left].
  - destruct (str_eqb k k') eqn:Ek; simpl.
    + apply str_eqb_eq in Ek; subst k'. split; [tauto|].
      intros [H| ->]; [exact H|now left].
    + rewrite IH. tauto.
Qed.

Lemma dict_set_keys_NoDup (d : list (str * V)) (k : str) (v : V) :
  NoDup (map fst d) -> NoDup (map fst (dict_set d k v)).
Proof.
  induction d as [|[k' v'] d IH]; simpl; intros H.
  - constructor; [intros []|constructor].
  - inversion H as [|? ? Hnotin Hnd]; subst.
    destruct (str_eqb k k') eqn:Ek; simpl.
    + now constructor.
    + constructor; [|now apply IH].
      rewrite dict_set_keys_In. intros [Hin| ->]; [now apply Hnotin|].
      now rewrite str_eqb_refl in Ek.
Qed.
End DictFacts.

Section LedgerClaims.
Import SessionState.
Context {A : Type} {NA : Num A}.

Lemma expenses_appends (ledger : SessionState.t A) (es : list (Expense.t A)) :
  expenses (appends ledger es) = expenses ledger ++ es.
Proof.
  revert ledger; induction es as [|e es IH]; intros ledger; simpl.
  - now rewrite app_nil_r.
  - unfold appends in *. simpl. rewrite IH. simpl.
    now rewrite <- app_assoc.
Qed.

Lemma tally_keys (es : list (Expense.t A)) (totals : list (str * A)) (c : str) :
  In c (map fst (fold_left tally es totals)) <->
  In c (map fst totals) \/ In c (map (@Expense.category A) es).
Proof.
  revert totals; induction es as [|e es IH]; intros totals; simpl.
  - tauto.
  - rewrite IH. unfold tally. rewrite dict_set_keys_In.
    split; [intros [[H|H]|H]|intros [H|[H|H]]]; auto.
Qed.

Lemma tally_NoDup (es : list (Expense.t A)) (totals : list (str * A)) :
  NoDup (map fst totals) -> NoDup (map fst (fold_left tally es totals)).
Proof.
  revert totals; induction es as [|e es IH]; intros totals H; simpl;
    [exact H|].
  apply IH. now apply dict_set_keys_NoDup.
Qed.

Lemma tally_get (es : list (Expense.t A)) (totals : list (str * A)) (c : str) :
  dict_get (fold_left tally es totals) c zero =
  fold_left add (amounts_of c es) (dict_get totals c zero).
Proof.
  revert totals; induction es as [|e es IH]; intros totals; simpl;
    [reflexivity|].
  rewrite IH. unfold tally at 1. rewrite dict_get_set.
  unfold amounts_of. simpl.
  destruct (str_eqb c (Expense.category e)) eqn:Ec; simpl; [|reflexivity].
  apply str_eqb_eq in Ec. now subst c.
Qed.

Section Exact.
Context {EA : ExactAdd A}.

Lemma fold_left_add_init (l : list A) (x y : A) :
  fold_left add l (add x y) = add (fold_left add l x) y.
Proof.
  revert x; induction l as [|a l IH]; intros x; simpl; [reflexivity|].
  rewrite <- IH. f_equal.
  rewrite <- !add_assoc. f_equal. apply add_comm.
Qed.

Lemma sum_cons (a : A) (l : list A) : sum (a :: l) = add (sum l) a.
Proof.
  rewrite !sum_exact. simpl. now rewrite fold_left_add_init.
Qed.

Lemma sum_dict_set (d : list (str * A)) (k : str) (a : A) :
  sum (map snd (dict_set d k (add (dict_get d k zero) a))) =
  add (sum (map snd d)) a.
Proof.
  induction d as [|[k' v'] d IH]; simpl.
  - now rewrite sum_cons, add_zero_l.
  - destruct (str_eqb k k') eqn:Ek; simpl.
    + rewrite !sum_cons. now rewrite add_assoc.
    + rewrite !sum_cons, IH. rewrite <- !add_assoc. f_equal. apply add_comm.
Qed.

Lemma sum_tally (es : list (Expense.t A)) (totals : list (str * A)) :
  sum (map snd (fold_left tally es totals)) =
  fold_left add (map (@Expense.amount A) es) (sum (map snd totals)).
Proof.
  revert totals; induction es as [|e es IH]; intros totals; simpl;
    [reflexivity|].
  rewrite IH. unfold tally at 1. now rewrite sum_dict_set.
Qed.
End Exact.

(** C1 as amended: after any sequence of appends to a fresh ledger the
    count is the number of appends, the records are the appended ones in
    order, the total is their amounts summed in that order, and the category
    totals have exactly the categories of the stored records as keys, each
    once, each mapped to the sum of that category's amounts in insertion
    order.  The category totals add up to the total when addition of amounts
    is exact, that is associative and commutative with 0 as unit, [sum]
    being then the plain sum. *)
Theorem ledger_totals (session_id now : str) (es : list (Expense.t A)) :
  let ledger := appends (SessionState.init session_id now) es in
  get_expense_count ledger = length es /\
  expenses ledger = es /\
  get_total ledger = sum (map (@Expense.amount A) es) /\
  NoDup (map fst (get_category_totals ledger)) /\
  (forall c, In c (map fst (get_category_totals ledger)) <->
             In c (map (@Expense.category A) (expenses ledger))) /\
  (forall c, dict_get (get_category_totals ledger) c zero =
             fold_left add (amounts_of c es) zero) /\
  (ExactAdd A ->
   sum (map snd (get_category_totals ledger)) = get_total ledger).
Proof.
  intros ledger.
  assert (E : expenses ledger = es)
    by (unfold ledger; now rewrite expenses_appends).
  unfold get_expense_count, get_total, get_category_totals.
  rewrite E. fold tally.
  split; [reflexivity|]. split; [reflexivity|]. split; [reflexivity|].
  split; [apply tally_NoDup; constructor|].
  split; [intros c; rewrite tally_keys; simpl; tauto|].
  split; [intros c; apply tally_get|].
  intros EA. rewrite sum_tally, (sum_exact (map _ es)). simpl.
  now rewrite sum_exact.
Qed.
End LedgerClaims.

Section TopCategoryClaims.
Import SessionState BudgetAnalyzerAgent.
Context {A : Type} {NA : Num A} {SG : StrictGt A}.

(** The scan of [max] keeps the first item that no item exceeds. *)
Lemma max_by_value_scan (items seen_before seen_after : list (str * A))
      (best : str * A) :
  (forall x, In x (seen_before ++ best :: seen_after) ->
             gtb (snd x) (snd best) = false) ->
  (forall x, In x seen_before -> snd x <> snd best) ->
  exists pre post,
    (seen_before ++ best :: seen_after) ++ items
    = pre ++ max_by_value best items :: post /\
    (forall x, In x ((seen_before ++ best :: seen_after) ++ items) ->
               gtb (snd x) (snd (max_by_value best items)) = false) /\
    (forall x, In x pre -> snd x <> snd (max_by_value best items)).
Proof.
  revert seen_before seen_after best.
  induction items as [|item items IH]; intros p q best Hmax Hfirst; simpl.
  - exists p, q. rewrite app_nil_r. now repeat split.
  - destruct (gtb (snd item) (snd best)) eqn:Hgt.
    + destruct (IH (p ++ best :: q) [] item) as (pre & post & E & H1 & H2).
      * intros x Hx. apply in_app_or in Hx. destruct Hx as [Hx|[<-|[]]].
        -- destruct (gtb (snd x) (snd item)) eqn:Hx'; [|reflexivity].
           rewrite <- (Hmax x Hx). symmetry.
           now apply gtb_trans with (y := snd item).
        -- apply gtb_irrefl.
      * intros x Hx Heq. specialize (Hmax x Hx). congruence.
      * exists pre, post. rewrite <- E, <- !app_assoc. simpl.
        rewrite <- !app_assoc in H1. simpl in H1. now repeat split.
    + destruct (IH p (q ++ [item]) best) as (pre & post & E & H1 & H2).
      * intros x Hx. rewrite app_comm_cons, app_assoc in Hx.
        apply in_app_or in Hx. destruct Hx as [Hx|[<-|[]]]; auto.
      * exact Hfirst.
      * exists pre, post. rewrite <- E.
        rewrite !app_comm_cons, !app_assoc in *.
        rewrite <- !app_assoc in *. simpl in *. now repeat split.
Qed.

(** C4: when the category totals are empty the top category is
    [('none', 0)]; otherwise it is an entry of the category totals that no
    entry exceeds, and the first such entry in insertion order: every entry
    before it carries a different amount. *)
Theorem top_category_first_maximum (session_state : SessionState.t A) :
  let totals := get_category_totals session_state in
  let top := Insights.top_category (_generate_insights session_state) in
  Insights.category_breakdown (_generate_insights session_state) = totals /\
  (totals = [] -> top = (lit "none", zero)) /\
  (totals <> [] ->
   exists pre post,
     totals = pre ++ top :: post /\
     (forall item, In item totals -> gtb (snd item) (snd top) = false) /\
     (forall item, In item pre -> snd item <> snd top)).
Proof.
  intros totals top. unfold top, _generate_insights. simpl. fold totals.
  split; [reflexivity|].
  destruct totals as [|item items]; split; try congruence; intros _.
  destruct (@max_by_value_scan items [] [] item) as (pre & post & E & H1 & H2).
  - intros x [<-|[]]. apply gtb_irrefl.
  - intros x [].
  - exists pre, post. simpl in E, H1. now repeat split.
Qed.
End TopCategoryClaims.

(** ** Analyzer *)

Section AnalyzerClaims.
Import SessionState BudgetAnalyzerAgent.
Context {A : Type} {NA : Num A} {C : Clock}.

Lemma first_missing_complete (d : ExpenseDict.t A) :
  first_missing d = None -> exists e, d = fields_of e.
Proof.
  destruct d as [[a|] [c|] [de|] [r|] [p|] [ca|]]; try discriminate.
  intros _. now exists (Expense.Build [] a c de ca p r).
Qed.

(** A complete candidate is stored under the next id and returned. *)
Lemma execute_complete (self : Agent.t) (d : ExpenseDict.t A)
      (w : World.t A) :
  first_missing d = None ->
  exists e,
    fst (execute self d w)
    = Return (Result.Build
                e (_generate_insights (add_expense (World.session w) e))) /\
    World.session (snd (execute self d w))
    = add_expense (World.session w) e /\
    Expense.id e = exp_id (get_expense_count (World.session w) + 1) /\
    fields_of e = d.
Proof.
  destruct d as [[a|] [c|] [de|] [r|] [p|] [ca|]]; try discriminate.
  intros _.
  exists (Expense.Build
            (exp_id (get_expense_count (World.session w) + 1)) a c de ca p r).
  unfold execute. cbn [ExpenseDict.amount ExpenseDict.currency
    ExpenseDict.description ExpenseDict.category ExpenseDict.parsed_at
    ExpenseDict.raw_input]. play. repeat split.
Qed.

(** An incomplete one raises at the first key it lacks; the session is
    not touched. *)
Lemma execute_incomplete (self : Agent.t) (d : ExpenseDict.t A)
      (w : World.t A) (k : key) :
  first_missing d = Some k ->
  fst (execute self d w) = Raise (KeyError k) /\
  World.session (snd (execute self d w)) = World.session w.
Proof.
  destruct d as [[a|] [c|] [de|] [r|] [p|] [ca|]]; try discriminate;
    intros E; inversion E; subst k; unfold execute;
    cbn [ExpenseDict.amount ExpenseDict.currency ExpenseDict.description
         ExpenseDict.category ExpenseDict.parsed_at ExpenseDict.raw_input];
    play; split; reflexivity.
Qed.
Lemma missing_first_missing (d : ExpenseDict.t A) :
  ExpenseDict.amount d = None \/ ExpenseDict.currency d = None \/
  ExpenseDict.description d = None \/ ExpenseDict.category d = None \/
  ExpenseDict.parsed_at d = None \/ ExpenseDict.raw_input d = None ->
  exists k, first_missing d = Some k.
Proof.
  destruct d as [[a|] [c|] [de|] [r|] [p|] [ca|]]; simpl;
    intros [H|[H|[H|[H|[H|H]]]]]; try discriminate; eexists; reflexivity.
Qed.

(** C6: handed a candidate that lacks one of the six keys, the analyzer
    raises (the [KeyError] of the first key it lacks, which is what the
    caller gets as the validation failure) and leaves the ledger as it was:
    the same records, count, total and category totals. *)
Theorem finalize_missing_field (self : Agent.t) (d : ExpenseDict.t A)
        (w : World.t A) :
  ExpenseDict.amount d = None \/ ExpenseDict.currency d = None \/
  ExpenseDict.description d = None \/ ExpenseDict.category d = None \/
  ExpenseDict.parsed_at d = None \/ ExpenseDict.raw_input d = None ->
  exists k,
    first_missing d = Some k /\
    fst (execute self d w) = Raise (KeyError k) /\
    expenses (World.session (snd (execute self d w)))
    = expenses (World.session w) /\
    get_expense_count (World.session (snd (execute self d w)))
    = get_expense_count (World.session w) /\
    get_total (World.session (snd (execute self d w)))
    = get_total (World.session w) /\
    get_category_totals (World.session (snd (execute self d w)))
    = get_category_totals (World.session w).
Proof.
  intros H. destruct (missing_first_missing d H) as [k Hk].
  destruct (execute_incomplete self d w Hk) as [Hr Hs].
  exists k. rewrite Hs. now repeat split.
Qed.

Lemma uint_of_digits_of_uint (u : Decimal.uint) :
  uint_of_digits (digits_of_uint u) = Some u.
Proof. induction u; simpl; try rewrite IHu; reflexivity. Qed.

Lemma id_number_exp_id (n : nat) : id_number (exp_id n) = Some n.
Proof.
  unfold id_number, exp_id, str_of_nat.
  rewrite strip_prefix_app, uint_of_digits_of_uint. simpl.
  now rewrite DecimalNat.Unsigned.of_to.
Qed.

Lemma NoDup_map_Some (l : list nat) : NoDup l -> NoDup (map Some l).
Proof.
  induction 1 as [|x l Hx _ IH]; simpl; constructor; [|exact IH].
  rewrite in_map_iff. intros (y & E & Hy). now inversion E; subst.
Qed.

(** What a run of the analyzer over [ds] adds to a ledger whose ids are
    [exp_1 .. exp_n]. *)
Lemma finalize_all_spec (self : Agent.t) (ds : list (ExpenseDict.t A))
      (w : World.t A) :
  map (@Expense.id A) (expenses (World.session w))
  = map exp_id (seq 1 (length (expenses (World.session w)))) ->
  map (@Expense.id A) (expenses (World.session (finalize_all self ds w)))
  = map exp_id
        (seq 1 (length (expenses (World.session (finalize_all self ds w)))))
  /\
  map fields_of (expenses (World.session (finalize_all self ds w)))
  = map fields_of (expenses (World.session w)) ++ filter is_complete ds.
Proof.
  revert w; induction ds as [|d ds IH]; intros w H.
  - split; [exact H|]. simpl. now rewrite app_nil_r.
  - change (finalize_all self (d :: ds) w)
      with (finalize_all self ds (snd (execute self d w))).
    cbn [filter]. unfold is_complete at 1.
    destruct (first_missing d) as [k|] eqn:Hk.
    + destruct (execute_incomplete self d w Hk) as [_ Hs].
      destruct (IH (snd (execute self d w))) as [H1 H2].
      { now rewrite Hs. }
      split; [exact H1|]. now rewrite H2, Hs.
    + destruct (execute_complete self d w Hk) as (e & _ & Hs & Hid & Hf).
      destruct (IH (snd (execute self d w))) as [H1 H2].
      { rewrite Hs. cbn [expenses add_expense].
        rewrite map_app, length_app, H. cbn [map length].
        rewrite Hid. unfold get_expense_count.
        now rewrite Nat.add_1_r, seq_S, map_app. }
      split; [exact H1|]. rewrite H2, Hs. cbn [expenses add_expense].
      rewrite map_app, <- app_assoc. cbn [map app]. now rewrite Hf.
Qed.

(** C5: a call with a complete candidate stores a record whose id is
    [exp_<count before + 1>], right after the records already there, and
    returns it.  Over any sequence of calls on a fresh ledger the stored
    ids are [exp_1], [exp_2], ... in order, so their numbers increase
    strictly and no id occurs twice, and the records are the complete
    candidates in the order they were handed in. *)
Theorem sequential_ids (self : Agent.t) (w0 : World.t A) :
  expenses (World.session w0) = [] ->
  (forall d w,
      first_missing d = None ->
      exists e insights,
        fst (execute self d w) = Return (Result.Build e insights) /\
        Expense.id e = exp_id (get_expense_count (World.session w) + 1) /\
        fields_of e = d /\
        expenses (World.session (snd (execute self d w)))
        = expenses (World.session w) ++ [e]) /\
  (forall ds,
      let es := expenses (World.session (finalize_all self ds w0)) in
      map (@Expense.id A) es = map exp_id (seq 1 (length es)) /\
      map id_number (map (@Expense.id A) es)
      = map Some (seq 1 (length es)) /\
      NoDup (map (@Expense.id A) es) /\
      map fields_of es = filter is_complete ds).
Proof.
  intros Hfresh. split.
  - intros d w Hd.
    destruct (execute_complete self d w Hd) as (e & Hr & Hs & Hid & Hf).
    exists e, (_generate_insights (add_expense (World.session w) e)).
    rewrite Hs. now repeat split.
  - intros ds es.
    destruct (finalize_all_spec self ds w0) as [Hids Hfields].
    { now rewrite Hfresh. }
    fold es in Hids, Hfields. rewrite Hfresh in Hfields. simpl in Hfields.
    assert (Hnum : map id_number (map (@Expense.id A) es)
                   = map Some (seq 1 (length es))).
    { rewrite Hids, map_map. apply map_ext. intros n.
      apply id_number_exp_id. }
    split; [exact Hids|]. split; [exact Hnum|]. split; [|exact Hfields].
    apply NoDup_map_inv with (f := id_number). rewrite Hnum.
    apply NoDup_map_Some, seq_NoDup.
Qed.
End AnalyzerClaims.

(** ** Pipeline *)

Section PipelineFacts.
Import ExpenseParserTool SessionState BudgetAnalyzerAgent.
Import PersonalFinanceAgentSystem.
Context {U : Unicode} {A : Type} {NA : Num A} {FA : FloatConv A} {C : Clock}.

Lemma search_Some (m : str -> option str) (text g : str) :
  search m text = Some g -> exists pre suf, text = pre ++ suf /\ m suf = Some g.
Proof.
  induction text as [|c text IH]; simpl.
  - destruct (m []) eqn:E; [|discriminate].
    intros H; inversion H; subst. now exists [], [].
  - destruct (m (c :: text)) eqn:E.
    + intros H; inversion H; subst. now exists [], (c :: text).
    + intros H. destruct (IH H) as (pre & suf & -> & Hm).
      now exists (c :: pre), suf.
Qed.

(** [float] is only ever applied to the text of a numeral. *)
Lemma parse_amount_numeral (text now : str) :
  exists a,
    ExpenseDict.amount (parse text now) = Some a /\
    (a = (zero : A) \/ exists g, decimal_numeral g /\ a = float g).
Proof.
  assert (Hsym : forall sym g, search (match_symbol sym) text = Some g ->
                               decimal_numeral g).
  { intros sym g H. apply search_Some in H.
    destruct H as (pre & suf & _ & H). apply match_symbol_Some in H.
    destruct H as (ws & post & _ & _ & H).
    eapply greedy_numeral_decimal, H. }
  unfold parse.
  destruct (search (match_symbol RUPEE) text) as [g|] eqn:E1.
  { exists (float g). split; [reflexivity|]. right. exists g.
    split; [eapply Hsym, E1|reflexivity]. }
  destruct (search (match_symbol DOLLAR) text) as [g|] eqn:E2.
  { exists (float g). split; [reflexivity|]. right. exists g.
    split; [eapply Hsym, E2|reflexivity]. }
  destruct (search match_numeral text) as [g|] eqn:E3.
  - exists (float g). split; [reflexivity|]. right. exists g.
    split; [|reflexivity]. apply search_Some in E3.
    destruct E3 as (pre & suf & _ & H). apply match_numeral_Some in H.
    destruct H as (post & _ & H). eapply greedy_numeral_decimal, H.
  - exists zero. split; [reflexivity|now left].
Qed.

Lemma parse_shape (text now : str) :
  exists a c,
    parse (A := A) text now
    = ExpenseDict.Build (Some a) (Some c) (Some text) (Some text) (Some now)
                        None.
Proof.
  unfold parse.
  destruct (search (match_symbol RUPEE) text);
    [|destruct (search (match_symbol DOLLAR) text);
      [|destruct (search match_numeral text)]]; eauto.
Qed.

(** Every label [classify] can return is ASCII. *)
Lemma classify_encodable (description : str) :
  encodable (CategoryClassifierTool.classify description) = true.
Proof.
  assert (H : In (CategoryClassifierTool.classify description) labels).
  { unfold CategoryClassifierTool.classify.
    destruct (CategoryClassifierTool.first_match
                CategoryClassifierTool.categories (lower description))
      as [c|] eqn:E.
    - apply first_match_In in E. exact E.
    - apply other_is_label. }
  assert (Hall : forallb encodable labels = true) by reflexivity.
  rewrite forallb_forall in Hall. now apply Hall.
Qed.

(** One call of the pipeline on a text that can be printed returns: it
    stores the record built from what [parse] and [classify] return for the
    input. *)
Lemma process_expense_spec (self : PersonalFinanceAgentSystem.t)
      (raw_input : str) (w : World.t A) :
  encodable raw_input = true ->
  exists e,
    fst (process_expense self raw_input w)
    = Return (Result.Build
                e (_generate_insights (add_expense (World.session w) e))) /\
    World.session (snd (process_expense self raw_input w))
    = add_expense (World.session w) e /\
    Expense.id e = exp_id (get_expense_count (World.session w) + 1) /\
    fields_of e
    = ExpenseDict.set_category
        (CategoryClassifierTool.classify raw_input)
        (parse raw_input (isoformat_now (S (World.ticks w)))).
Proof.
  intros Hraw.
  pose proof (classify_encodable raw_input) as Hlabel.
  destruct (parse_shape raw_input (isoformat_now (S (World.ticks w))))
    as (a & c & E).
  exists (Expense.Build
            (exp_id (get_expense_count (World.session w) + 1)) a c raw_input
            (CategoryClassifierTool.classify raw_input)
            (isoformat_now (S (World.ticks w))) raw_input).
  unfold process_expense, InputParserAgent.execute,
    CategoryClassifierAgent.execute, execute, tick.
  play. cbn [logged World.ticks]. rewrite E.
  repeat first
    [ progress play
    | progress cbn [ExpenseDict.description ExpenseDict.set_category
                    ExpenseDict.amount ExpenseDict.currency
                    ExpenseDict.category ExpenseDict.parsed_at
                    ExpenseDict.raw_input] ].
  repeat split.
Qed.

(** On a text that cannot be printed the call raises at its banner, before
    the clock is read or anything is logged or stored. *)
Lemma process_expense_unprintable (self : PersonalFinanceAgentSystem.t)
      (raw_input : str) (w : World.t A) :
  encodable raw_input = false ->
  process_expense self raw_input w
  = (Raise (UnicodeEncodeError (banner raw_input)), w).
Proof.
  intros Hraw. unfold process_expense. play.
  rewrite print_raises; [reflexivity|].
  now rewrite encodable_app, Hraw, andb_false_r.
Qed.
End PipelineFacts.

(** ** Sums of amounts that are not negative *)

Section SumLaws.
Context {A : Type} {NA : Num A}.

Lemma fold_add_nonneg {AN : AddNonNegative A} (l : list A) (x : A) :
  nonneg x -> Forall nonneg l -> nonneg (fold_left add l x).
Proof.
  intros Hx Hl. revert x Hx. induction Hl as [|a l Ha _ IH]; intros x Hx;
    simpl; [exact Hx|].
  apply IH. now apply add_nonneg.
Qed.

(** For a [sum] that adds from left to right the two laws of [sum] in
    [NonNegative] follow from the monotonicity of [+]. *)
Lemma left_to_right_sum_laws {LS : LeftToRightSum A} {AN : AddNonNegative A} :
  nonneg (zero : A) ->
  (forall xs : list A, Forall nonneg xs -> nonneg (sum xs)) /\
  (forall (xs : list A) (x : A),
      Forall nonneg xs -> nonneg x -> geb (sum (xs ++ [x])) (sum xs) = true).
Proof.
  intros Hz. split.
  - intros xs H. rewrite sum_fold. now apply fold_add_nonneg.
  - intros xs x H Hx. rewrite !sum_fold, fold_left_app. simpl.
    apply add_nonneg; [|exact Hx]. now apply fold_add_nonneg.
Qed.

(** With such a [sum] the total after an append is the total before plus
    the new amount. *)
Lemma total_add_expense {LS : LeftToRightSum A} (ledger : SessionState.t A)
      (e : Expense.t A) :
  SessionState.get_total (SessionState.add_expense ledger e)
  = add (SessionState.get_total ledger) (Expense.amount e).
Proof.
  unfold SessionState.get_total.
  cbn [SessionState.expenses SessionState.add_expense].
  now rewrite !sum_fold, map_app, fold_left_app.
Qed.
End SumLaws.

Section NonNegativeClaims.
Import ExpenseParserTool SessionState BudgetAnalyzerAgent.
Import PersonalFinanceAgentSystem.
Context {U : Unicode} {A : Type} {NA : Num A} {FA : FloatConv A} {C : Clock}.
Context {NN : NonNegative A}.

Lemma parse_amount_nonneg (text now : str) :
  exists a, ExpenseDict.amount (parse text now) = Some a /\ nonneg a.
Proof.
  destruct (parse_amount_numeral (A := A) text now) as (a & Ha & Hcase).
  exists a. split; [exact Ha|].
  destruct Hcase as [-> | (g & Hg & ->)].
  - apply zero_nonneg.
  - now apply float_nonneg.
Qed.

Lemma total_nonneg (ledger : SessionState.t A) :
  Forall nonneg (map (@Expense.amount A) (expenses ledger)) ->
  nonneg (get_total ledger).
Proof. intros H. now apply sum_nonneg. Qed.

Lemma total_grows (ledger : SessionState.t A) (e : Expense.t A) :
  Forall nonneg (map (@Expense.amount A) (expenses ledger)) ->
  nonneg (Expense.amount e) ->
  geb (get_total (add_expense ledger e)) (get_total ledger) = true.
Proof.
  intros H He. unfold get_total. cbn [expenses add_expense].
  rewrite map_app. now apply sum_grows.
Qed.

(** The amount of the record a call stores is the amount [parse] returns. *)
Lemma stored_amount_nonneg (e : Expense.t A) (category text now : str) :
  fields_of e = ExpenseDict.set_category category (parse text now) ->
  nonneg (Expense.amount e).
Proof.
  intros H. destruct (parse_amount_nonneg text now) as (a & Ha & Hn).
  apply (f_equal (@ExpenseDict.amount A)) in H. simpl in H.
  rewrite Ha in H. injection H as ->. exact Hn.
Qed.

Lemma run_amounts_nonneg (self : PersonalFinanceAgentSystem.t)
      (inputs : list str) (w : World.t A) :
  Forall nonneg (map (@Expense.amount A) (expenses (World.session w))) ->
  Forall nonneg
         (map (@Expense.amount A)
              (expenses (World.session (run self inputs w)))).
Proof.
  revert w; induction inputs as [|raw inputs IH]; intros w H; [exact H|].
  change (run self (raw :: inputs) w)
    with (run self inputs (snd (process_expense self raw w))).
  apply IH. destruct (encodable raw) eqn:Hraw.
  - destruct (process_expense_spec self raw w Hraw) as (e & _ & -> & _ & He).
    cbn [expenses add_expense]. rewrite map_app. apply Forall_app.
    split; [exact H|]. constructor; [|constructor].
    eapply stored_amount_nonneg, He.
  - now rewrite (process_expense_unprintable self raw w Hraw).
Qed.

End NonNegativeClaims.

(** ** Observability log *)

Section StoreFacts.
Context {X : Type}.

Lemma deref_assign (h : Store.t X) (r : Store.ref) (l : list X) :
  r < length h -> Store.deref (Store.assign h r l) r = l.
Proof.
  unfold Store.deref. revert r; induction h as [|c h IH]; intros r; simpl;
    [lia|].
  destruct r as [|r]; simpl; [reflexivity|].
  intros H. apply IH. lia.
Qed.
End StoreFacts.

Section LoggerClaims.
Context {A : Type} {C : Clock}.

(** C8 as amended: [get_logs] hands out the reference of the logger's own
    list and changes nothing.  The list it returned is no snapshot: an
    event logged afterwards shows up in it, and an append or a clear made
    through it is an append or a clear of the stored event sequence. *)
Theorem get_logs_is_alias (self : AgentLogger.t) (w : World.t A) :
  AgentLogger.get_logs self = AgentLogger.logs self /\
  (AgentLogger.logs self < length (World.store w) ->
   (forall agent_name kind message data,
       Store.deref
         (World.store
            (snd (AgentLogger.log self agent_name kind message data w)))
         (AgentLogger.get_logs self)
       = Store.deref (World.store w) (AgentLogger.get_logs self)
         ++ [Event.Build (isoformat_now (World.ticks w)) agent_name kind
                         message data]) /\
   (forall e,
       Store.deref (Store.append (World.store w) (AgentLogger.get_logs self) e)
                   (AgentLogger.logs self)
       = Store.deref (World.store w) (AgentLogger.logs self) ++ [e]) /\
   Store.deref (Store.clear (World.store w) (AgentLogger.get_logs self))
               (AgentLogger.logs self) = []).
Proof.
  split; [reflexivity|].
  intros H. unfold AgentLogger.get_logs, Store.append, Store.clear.
  split; [|split].
  - intros agent_name kind message data.
    rewrite log_eq. cbn [snd logged World.store]. unfold Store.append.
    now apply deref_assign.
  - intros e. now apply deref_assign.
  - now apply deref_assign.
Qed.
End LoggerClaims.

(** * The program on the instances *)

Import Latin Hundredths Counter Binary64.

(** ** Laws of exact decimals *)

Lemma hundredths_exact_add : ExactAdd Z.
Proof.
  split; simpl; intros; first [lia | reflexivity].
Qed.

Lemma hundredths_left_to_right_sum : LeftToRightSum Z.
Proof. split. reflexivity. Qed.

Lemma hundredths_add_non_negative : AddNonNegative Z.
Proof. split. simpl. intros x y. rewrite !Z.geb_le. lia. Qed.

Lemma hundredths_strict_gt : StrictGt Z.
Proof.
  split; simpl; intros; lia.
Qed.

Lemma latin_digit_value (c : char) :
  Latin.ascii_digit c = true -> (0 <= Hundredths.digit_value c)%Z.
Proof.
  unfold Latin.ascii_digit, Hundredths.digit_value.
  rewrite andb_true_iff, !N.leb_le. lia.
Qed.

Lemma int_of_digits_nonneg (ds : str) (acc : Z) :
  Forall (fun c => Latin.ascii_digit c = true) ds -> (0 <= acc)%Z ->
  (0 <= fold_left (fun acc c => 10 * acc + Hundredths.digit_value c) ds acc)%Z.
Proof.
  intros H. revert acc. induction H as [|c ds Hc _ IH]; intros acc Hacc;
    cbn [fold_left]; [exact Hacc|].
  apply IH. apply latin_digit_value in Hc. lia.
Qed.

Lemma hundredths_non_negative : NonNegative (U := Latin.unicode) Z.
Proof.
  split.
  - reflexivity.
  - intros g (ds & frac & -> & _ & Hds & Hfrac).
    change (Z.geb (Hundredths.of_numeral (ds ++ frac)) 0 = true).
    rewrite Z.geb_le. unfold Hundredths.of_numeral.
    pose proof (int_of_digits_nonneg Hds (Z.le_refl 0)) as Hint.
    fold (Hundredths.int_of_digits ds) in Hint.
    destruct Hfrac as [-> | (a & b & -> & Ha & Hb)].
    + rewrite (span_digits_app [] Hds I). lia.
    + rewrite (span_digits_app [ExpenseParserTool.DOT; a; b] Hds eq_refl).
      apply latin_digit_value in Ha, Hb. lia.
  - apply (left_to_right_sum_laws (LS := hundredths_left_to_right_sum)
                                  (AN := hundredths_add_non_negative)).
    reflexivity.
  - apply (left_to_right_sum_laws (LS := hundredths_left_to_right_sum)
                                  (AN := hundredths_add_non_negative)).
    reflexivity.
Qed.

(** ** Laws of binary64 *)

Lemma SFltb_irrefl (x : spec_float) : SFltb x x = false.
Proof.
  unfold SFltb, SFcompare.
  destruct x as [s|s| |s m e]; try destruct s; try reflexivity;
    rewrite Z.compare_refl;
    change (Pos.compare_cont Eq m m) with (Pos.compare m m);
    rewrite Pos.compare_refl; reflexivity.
Qed.

Lemma SFltb_trans (x y z : spec_float) :
  SFltb x y = true -> SFltb y z = true -> SFltb x z = true.
Proof.
  unfold SFltb, SFcompare.
  destruct x as [sx|sx| |sx mx ex], y as [sy|sy| |sy my ey],
           z as [sz|sz| |sz mz ez];
    try destruct sx; try destruct sy; try destruct sz;
    try discriminate; try reflexivity;
    change (Pos.compare_cont Eq) with Pos.compare;
    destruct (Z.compare_spec ex ey), (Z.compare_spec ey ez),
             (Z.compare_spec ex ez);
    try discriminate; try reflexivity; try lia;
    destruct (Pos.compare_spec mx my), (Pos.compare_spec my mz),
             (Pos.compare_spec mx mz);
    simpl; try discriminate; try reflexivity; try lia.
Qed.

Lemma binary64_strict_gt : StrictGt PrimFloat.float.
Proof.
  split; simpl.
  - intros x. rewrite ltb_spec. apply SFltb_irrefl.
  - intros x y z. rewrite !ltb_spec. intros Hxy Hyz.
    now apply SFltb_trans with (y := Prim2SF y).
Qed.

Lemma binary64_left_to_right_sum : LeftToRightSum PrimFloat.float.
Proof. split. reflexivity. Qed.

Lemma binary64_not_exact_add : ~ ExactAdd PrimFloat.float.
Proof.
  intros [Hassoc _ _ _].
  specialize (Hassoc Demo.ten_paise Demo.ten_paise Demo.one_ten).
  apply (f_equal (PrimFloat.eqb
                    (add Demo.ten_paise (add Demo.ten_paise Demo.one_ten))))
    in Hassoc.
  vm_compute in Hassoc. discriminate.
Qed.

(** ** The sample runs *)

Section SampleRuns.
Import ExpenseParserTool CategoryClassifierTool SessionState.
Import BudgetAnalyzerAgent PersonalFinanceAgentSystem.

(** The two-step scenario of [run_demo]: 500 for food, 80 for
    transportation, amounts in hundredths. *)
Example demo_two_expenses :
  map (fun e => (Expense.id e, Expense.amount e, Expense.category e))
      (expenses (World.session Demo.world2))
  = [ (lit "exp_1", 50000%Z, lit "food");
      (lit "exp_2", 8000%Z, lit "transportation") ] /\
  get_total (World.session Demo.world2) = 58000%Z /\
  get_category_totals (World.session Demo.world2)
  = [ (lit "food", 50000%Z); (lit "transportation", 8000%Z) ] /\
  Insights.top_category (_generate_insights (World.session Demo.world2))
  = (lit "food", 50000%Z).
Proof. vm_compute. repeat split. Qed.

Example demo_lunch :
  parse Demo.lunch []
  = ExpenseDict.Build (Some 4500%Z) (Some DOLLAR) (Some Demo.lunch)
                      (Some Demo.lunch) (Some []) None /\
  classify Demo.lunch = lit "food".
Proof. vm_compute. repeat split. Qed.

Example demo_unspecified :
  ExpenseDict.amount (parse Demo.unspecified []) = Some 0%Z /\
  classify Demo.unspecified = lit "other".
Proof. vm_compute. repeat split. Qed.

(** C3: the symbol [parse] looks for first is the literal of the source
    file, the three code points U+00E2 U+201A U+00B9, and not the rupee
    sign U+20B9.  No text makes [parse] return the rupee sign as currency.
    In a text with a dollar amount and, after it, an amount behind the
    rupee sign, the rupee pattern finds nothing and the dollar amount is
    returned (5.00 dollars, not 12.50 rupees); an amount behind the rupee
    sign alone is read as a bare numeral, with the literal as currency. *)
Theorem rupee_sign_not_recognised :
  RUPEE <> Demo.rupee_sign /\
  (forall text now : str,
      ExpenseDict.currency (parse (A := Z) text now)
      <> Some Demo.rupee_sign) /\
  search (match_symbol RUPEE) Demo.mixed_rupee_sign = None /\
  parse Demo.mixed_rupee_sign []
  = ExpenseDict.Build (Some 500%Z) (Some DOLLAR)
                      (Some Demo.mixed_rupee_sign)
                      (Some Demo.mixed_rupee_sign) (Some []) None /\
  search (match_symbol RUPEE) Demo.plain_rupee_sign = None /\
  search (match_symbol DOLLAR) Demo.plain_rupee_sign = None /\
  parse Demo.plain_rupee_sign []
  = ExpenseDict.Build (Some 50000%Z) (Some RUPEE)
                      (Some Demo.plain_rupee_sign)
                      (Some Demo.plain_rupee_sign) (Some []) None.
Proof.
  split; [discriminate|]. split.
  - intros text now H.
    destruct (parse_currency (U := Latin.unicode) (A := Z) text now) as [E|E];
      rewrite E in H; discriminate.
  - vm_compute. repeat split.
Qed.

(** C1, counterexample: with binary64 amounts 0.10 (food), 0.10
    (transportation), 1.10 (food) the category totals do not add up to the
    total. *)
Lemma category_sum_differs_binary64 :
  PrimFloat.eqb (sum (map snd (get_category_totals Demo.float_ledger)))
                (get_total Demo.float_ledger) = false /\
  sum (map snd (get_category_totals Demo.float_ledger))
  <> get_total Demo.float_ledger.
Proof.
  assert (E : PrimFloat.eqb
                (sum (map snd (get_category_totals Demo.float_ledger)))
                (get_total Demo.float_ledger) = false)
    by (vm_compute; reflexivity).
  split; [exact E|].
  intros H. rewrite H in E. vm_compute in E. discriminate.
Qed.

(** The same ledger under the compensated [sum] of CPython 3.12: the two
    sums differ there too. *)
Remark category_sum_differs_compensated :
  PrimFloat.eqb
    (@sum _ Binary64.compensated
          (map snd (get_category_totals (NA := Binary64.compensated)
                                        Demo.float_ledger)))
    (get_total (NA := Binary64.compensated) Demo.float_ledger) = false.
Proof. vm_compute. reflexivity. Qed.

(** Under the compensated [sum] the total after an append is not the
    total before plus the new amount: 0.10 and 0.20 stored, 0.30 added. *)
Remark total_not_incremental_compensated :
  PrimFloat.eqb
    (get_total (NA := Binary64.compensated)
               (add_expense Samples.two_teas Samples.third_tea))
    (PrimFloat.add
       (get_total (NA := Binary64.compensated) Samples.two_teas)
       (Expense.amount Samples.third_tea)) = false.
Proof. vm_compute. reflexivity. Qed.

(** C1, witness: the exact ledger of the two sample expenses. *)
Lemma ledger_totals_witness :
  get_expense_count Demo.exact_ledger = 2 /\
  sum (map snd (get_category_totals Demo.exact_ledger))
  = get_total Demo.exact_ledger.
Proof.
  destruct (ledger_totals (A := Z) (lit "session_0") (lit "1")
                          (expenses (World.session Demo.world2)))
    as (Hcount & _ & _ & _ & _ & _ & Hsum).
  split; [exact Hcount|].
  apply Hsum. exact hundredths_exact_add.
Defined.


(** X16, witness: a dollar amount before and a bare numeral after the
    primary literal. *)
Lemma parse_primary_symbol_witness :
  exists pre' ws' g post',
    Demo.mixed = pre' ++ RUPEE ++ ws' ++ g ++ post' /\
    length pre' <= length (lit "$5 and ") /\
    Forall (blank (U := Latin.unicode)) ws' /\
    greedy_numeral (U := Latin.unicode) g post' /\
    ExpenseDict.currency (parse (A := Z) Demo.mixed []) = Some RUPEE /\
    ExpenseDict.amount (parse Demo.mixed []) = Some (float g : Z).
Proof.
  apply (@parse_primary_symbol Latin.unicode Z Hundredths.num Hundredths.conv
           Demo.mixed (lit "$5 and ") (lit " ") (lit "2.50 or 7") 49%N []).
  - reflexivity.
  - repeat constructor.
  - reflexivity.
Defined.

(** C4, witness: the binary64 ledger of the counterexample of C1. *)
Lemma top_category_first_maximum_witness :
  let totals := get_category_totals Demo.float_ledger in
  let top := Insights.top_category (_generate_insights Demo.float_ledger) in
  Insights.category_breakdown (_generate_insights Demo.float_ledger)
  = totals /\
  (totals = [] -> top = (lit "none", 0%float)) /\
  (totals <> [] ->
   exists pre post,
     totals = pre ++ top :: post /\
     (forall item, In item totals ->
                   PrimFloat.ltb (snd top) (snd item) = false) /\
     (forall item, In item pre -> snd item <> snd top)).
Proof.
  exact (@top_category_first_maximum PrimFloat.float Binary64.num
           binary64_strict_gt Demo.float_ledger).
Defined.

(** C5, witness: a complete candidate, an incomplete one, and the
    complete one again, handed to the analyzer of a fresh system. *)
Lemma sequential_ids_witness :
  let es :=
    expenses
      (World.session
         (finalize_all (analyzer_agent Demo.system)
                       [Demo.classified; Demo.unclassified; Demo.classified]
                       Demo.world0)) in
  map (@Expense.id Z) es = map exp_id (seq 1 (length es)) /\
  map id_number (map (@Expense.id Z) es) = map Some (seq 1 (length es)) /\
  NoDup (map (@Expense.id Z) es) /\
  map fields_of es
  = filter is_complete
           [Demo.classified; Demo.unclassified; Demo.classified].
Proof.
  destruct (@sequential_ids Z Hundredths.num Counter.clock
              (analyzer_agent Demo.system) Demo.world0 eq_refl)
    as [_ Hseq].
  exact (Hseq [Demo.classified; Demo.unclassified; Demo.classified]).
Defined.

(** C6, witness: the candidate without a category, on the sample ledger. *)
Lemma finalize_missing_field_witness :
  exists k,
    first_missing Demo.unclassified = Some k /\
    fst (execute (analyzer_agent Demo.system) Demo.unclassified Demo.world2)
    = Raise (KeyError k) /\
    expenses
      (World.session
         (snd (execute (analyzer_agent Demo.system) Demo.unclassified
                       Demo.world2)))
    = expenses (World.session Demo.world2) /\
    get_expense_count
      (World.session
         (snd (execute (analyzer_agent Demo.system) Demo.unclassified
                       Demo.world2)))
    = get_expense_count (World.session Demo.world2) /\
    get_total
      (World.session
         (snd (execute (analyzer_agent Demo.system) Demo.unclassified
                       Demo.world2)))
    = get_total (World.session Demo.world2) /\
    get_category_totals
      (World.session
         (snd (execute (analyzer_agent Demo.system) Demo.unclassified
                       Demo.world2)))
    = get_category_totals (World.session Demo.world2).
Proof.
  apply (@finalize_missing_field Z Hundredths.num Counter.clock
           (analyzer_agent Demo.system) Demo.unclassified Demo.world2).
  right; right; right; left. reflexivity.
Defined.

(** C7, witness: a text without a digit. *)
Lemma parse_no_numeral_witness :
  ExpenseDict.amount (parse Demo.unspecified []) = Some 0%Z /\
  ExpenseDict.currency (parse (A := Z) Demo.unspecified []) = Some RUPEE.
Proof.
  destruct (@parse_no_numeral Latin.unicode Z Hundredths.num Hundredths.conv
              Demo.unspecified []) as [Hdefault _].
  apply Hdefault.
  intros pre g post E (ds & frac & -> & Hne & Hds & _).
  destruct ds as [|c ds]; [now apply Hne|].
  inversion Hds as [|? ? Hc _]; subst.
  assert (Hin : In c Demo.unspecified)
    by (rewrite E; apply in_or_app; right; now left).
  revert Hc. vm_compute in Hin.
  repeat (destruct Hin as [<-|Hin]; [discriminate|]). destruct Hin.
Defined.

(** C8, counterexample: clearing the list that [get_logs] returned empties
    the log of the sample system. *)
Lemma log_cleared_through_get_logs :
  Store.deref
    (Store.clear (World.store Demo.world2)
                 (AgentLogger.get_logs (logger Demo.system)))
    (AgentLogger.logs (logger Demo.system))
  <> Store.deref (World.store Demo.world2)
                 (AgentLogger.logs (logger Demo.system)).
Proof. vm_compute. discriminate. Qed.

(** C8, witness: the same clear, by the theorem. *)
Lemma get_logs_is_alias_witness :
  Store.deref
    (Store.clear (World.store Demo.world2)
                 (AgentLogger.get_logs (logger Demo.system)))
    (AgentLogger.logs (logger Demo.system)) = [].
Proof.
  destruct (get_logs_is_alias (C := Counter.clock) (logger Demo.system)
                              Demo.world2) as (_ & H).
  apply H. vm_compute. apply le_n.
Defined.

(** C9, counterexample: a description that contains ['gas'] and is
    classified as food. *)
Lemma gas_station_lunch_is_food :
  keyword_occurs [lit "gas"] (lower Demo.gas_station_lunch) /\
  classify Demo.gas_station_lunch = lit "food" /\
  classify Demo.gas_station_lunch <> lit "transportation".
Proof.
  split; [|split].
  - exists (lit "gas"), (lit "lunch at "), (lit " station").
    split; [now left|reflexivity].
  - reflexivity.
  - vm_compute. discriminate.
Qed.

(** C9, witness: a gas refill is transportation. *)
Lemma gas_never_utilities_witness :
  classify Demo.gas_refill <> lit "utilities".
Proof.
  apply (@gas_never_utilities Latin.unicode Demo.gas_refill).
  exists (lit "gas"), [], (lit " cylinder refill 950").
  split; [now left|reflexivity].
Defined.

End SampleRuns.

(** * Further properties of the code *)

(** ** Ledger *)

Section LedgerExtras.
Import SessionState.
Context {A : Type} {NA : Num A}.

Lemma filter_filter_key (keys : list str) (c : str) (l : list str) :
  filter (fun x => negb (existsb (str_eqb x) (keys ++ [c]))) l
  = filter (fun x => negb (existsb (str_eqb x) keys))
           (filter (fun x => negb (str_eqb x c)) l).
Proof.
  induction l as [|x l IH]; simpl; [reflexivity|].
  rewrite existsb_app. simpl. rewrite orb_false_r.
  destruct (str_eqb x c); simpl.
  - rewrite orb_true_r. simpl. exact IH.
  - rewrite orb_false_r.
    destruct (existsb (str_eqb x) keys); simpl; now rewrite IH.
Qed.

Lemma filter_known_key (keys : list str) (c : str) (l : list str) :
  existsb (str_eqb c) keys = true ->
  filter (fun x => negb (existsb (str_eqb x) keys))
         (filter (fun x => negb (str_eqb x c)) l)
  = filter (fun x => negb (existsb (str_eqb x) keys)) l.
Proof.
  intros Hc. induction l as [|x l IH]; simpl; [reflexivity|].
  destruct (str_eqb x c) eqn:Ex; simpl.
  - apply str_eqb_eq in Ex; subst x. now rewrite Hc.
  - now rewrite IH.
Qed.

Lemma dict_set_keys (V : Type) (d : list (str * V)) (k : str) (v : V) :
  map fst (dict_set d k v)
  = if existsb (str_eqb k) (map fst d) then map fst d else map fst d ++ [k].
Proof.
  induction d as [|[k' v'] d IH]; simpl; [reflexivity|].
  destruct (str_eqb k k'); simpl; [reflexivity|].
  rewrite IH. now destruct (existsb (str_eqb k) (map fst d)).
Qed.

Lemma tally_key_order (es : list (Expense.t A)) (totals : list (str * A)) :
  map fst (fold_left tally es totals)
  = map fst totals
    ++ filter (fun x => negb (existsb (str_eqb x) (map fst totals)))
              (first_occurrences (map (@Expense.category A) es)).
Proof.
  revert totals; induction es as [|e es IH]; intros totals; simpl.
  - now rewrite app_nil_r.
  - rewrite IH. unfold tally at 1 2. rewrite dict_set_keys.
    destruct (existsb (str_eqb (Expense.category e)) (map fst totals)) eqn:E.
    + simpl. rewrite ?E. simpl. now rewrite filter_known_key.
    + simpl. rewrite ?E. simpl. rewrite <- app_assoc. simpl.
      now rewrite filter_filter_key.
Qed.

(** X1: the keys of the category totals are the categories of the stored
    records, without repetition, in the order of their first record. *)
Theorem category_totals_key_order (ledger : SessionState.t A) :
  map fst (get_category_totals ledger)
  = first_occurrences (map (@Expense.category A) (expenses ledger)).
Proof.
  unfold get_category_totals. fold (@tally A NA).
  rewrite tally_key_order. simpl.
  induction (first_occurrences (map (@Expense.category A) (expenses ledger)))
    as [|c l IH]; simpl; [reflexivity|]. now rewrite IH.
Qed.

(** X2: adding an expense appends it to the records, raises the count by
    one, raises the total of its category by its amount (from 0 for a new
    category) and leaves the totals of the other categories as they were.
    The total becomes [sum] of the old amounts followed by the new one; it
    is the old total plus the new amount for a [sum] that adds from left to
    right. *)
Theorem add_expense_totals (ledger : SessionState.t A) (e : Expense.t A) :
  expenses (add_expense ledger e) = expenses ledger ++ [e] /\
  get_expense_count (add_expense ledger e) = get_expense_count ledger + 1 /\
  get_total (add_expense ledger e)
  = sum (map (@Expense.amount A) (expenses ledger) ++ [Expense.amount e]) /\
  (LeftToRightSum A ->
   get_total (add_expense ledger e)
   = add (get_total ledger) (Expense.amount e)) /\
  (forall c,
      dict_get (get_category_totals (add_expense ledger e)) c zero
      = if str_eqb c (Expense.category e)
        then add (dict_get (get_category_totals ledger) c zero)
                 (Expense.amount e)
        else dict_get (get_category_totals ledger) c zero).
Proof.
  split; [reflexivity|]. split; [|split; [|split]].
  - unfold get_expense_count. cbn [expenses add_expense].
    now rewrite length_app.
  - unfold get_total. cbn [expenses add_expense]. now rewrite map_app.
  - intros LS. apply total_add_expense.
  - intros c. unfold get_category_totals. cbn [expenses add_expense].
    rewrite fold_left_app. cbn [fold_left]. rewrite dict_get_set.
    destruct (str_eqb c (Expense.category e)) eqn:Ec; [|reflexivity].
    apply str_eqb_eq in Ec. now subst c.
Qed.
End LedgerExtras.

(** ** Extractor *)

Section ExtractorExtras.
Import ExpenseParserTool.
Context {U : Unicode} {A : Type} {NA : Num A} {FA : FloatConv A}.

Lemma greedy_numeral_head (g post : str) :
  greedy_numeral g post -> exists d g', g = d :: g' /\ digit d.
Proof.
  intros (ds & frac & -> & Hne & Hds & _).
  destruct ds as [|d ds]; [now contradiction Hne|].
  inversion Hds; subst. now exists d, (ds ++ frac).
Qed.

Lemma search_symbol_None (sym text : str) :
  ~ occurs_before_number sym text -> search (match_symbol sym) text = None.
Proof.
  intros H. apply search_None. intros pre suf ->.
  destruct (match_symbol sym suf) as [g|] eqn:E; [exfalso|reflexivity].
  apply match_symbol_Some in E. destruct E as (ws & post & -> & Hws & Hg).
  destruct (greedy_numeral_head Hg) as (d & g' & -> & Hd).
  apply H. exists pre, ws, d, (g' ++ post).
  split; [reflexivity|]. now split.
Qed.

(** The bare pattern matches at the first digit of the text. *)
Lemma search_numeral_first_digit (text g : str) :
  search match_numeral text = Some g ->
  exists pre post,
    text = pre ++ g ++ post /\ no_digit pre /\ greedy_numeral g post.
Proof.
  induction text as [|c text IH]; simpl.
  - unfold match_numeral. simpl. discriminate.
  - destruct (match_numeral (c :: text)) as [g0|] eqn:E.
    + intros H; inversion H; subst g0.
      apply match_numeral_Some in E. destruct E as (post & E & Hg).
      exists [], post. split; [exact E|]. split; [constructor|exact Hg].
    + intros H. destruct (IH H) as (pre & post & -> & Hpre & Hg).
      exists (c :: pre), post. split; [reflexivity|]. split; [|exact Hg].
      constructor; [|exact Hpre].
      destruct (isdigit c) eqn:Hc; [|reflexivity].
      destruct (match_numeral_digit (pre ++ g ++ post) Hc) as [g1 Hg1].
      congruence.
Qed.

(** X3: when the primary symbol is nowhere followed by a number but the
    dollar sign, optional white space and a digit occur, [parse] returns
    ['$'] as currency and [float] of the numeral after the leftmost such
    dollar sign, also when a bare numeral stands earlier in the text. *)
Theorem parse_secondary_symbol
        (text pre ws post : str) (d : char) (now : str) :
  ~ occurs_before_number RUPEE text ->
  text = pre ++ DOLLAR ++ ws ++ d :: post ->
  Forall blank ws -> digit d ->
  exists pre' ws' g post',
    text = pre' ++ DOLLAR ++ ws' ++ g ++ post' /\
    length pre' <= length pre /\
    Forall blank ws' /\
    greedy_numeral g post' /\
    ExpenseDict.currency (parse (A := A) text now) = Some DOLLAR /\
    ExpenseDict.amount (parse text now) = Some (float g : A).
Proof.
  intros Hno -> Hws Hd.
  destruct (match_symbol_complete DOLLAR post Hws Hd) as [g0 Hg0].
  destruct (search_leftmost (match_symbol DOLLAR) pre
                            (DOLLAR ++ ws ++ d :: post))
    as (pre' & suf' & g & Heq & Hlen & Hm & Hs); [congruence|].
  destruct (match_symbol_Some _ _ Hm) as (ws' & post' & -> & Hws' & Hg).
  exists pre', ws', g, post'.
  split; [exact Heq|]. split; [exact Hlen|]. split; [exact Hws'|].
  split; [exact Hg|].
  unfold parse. rewrite (search_symbol_None Hno), Hs. simpl. auto.
Qed.

(** X4: when neither symbol is followed by a number but the text has a
    digit, the amount is [float] of the numeral that starts at the first
    digit of the text and the currency is the default symbol, whatever
    symbols stand elsewhere in the text. *)
Theorem parse_bare_numeral (text : str) (now : str) :
  ~ occurs_before_number RUPEE text ->
  ~ occurs_before_number DOLLAR text ->
  ~ no_digit text ->
  exists pre g post,
    text = pre ++ g ++ post /\
    no_digit pre /\
    greedy_numeral g post /\
    ExpenseDict.currency (parse (A := A) text now) = Some RUPEE /\
    ExpenseDict.amount (parse text now) = Some (float g : A).
Proof.
  intros Hr Hd Hdigit.
  destruct (search match_numeral text) as [g|] eqn:E.
  - destruct (search_numeral_first_digit text E)
      as (pre & post & Heq & Hpre & Hg).
    exists pre, g, post.
    split; [exact Heq|]. split; [exact Hpre|]. split; [exact Hg|].
    unfold parse.
    rewrite (search_symbol_None Hr), (search_symbol_None Hd), E. simpl. auto.
  - exfalso. apply Hdigit. apply Forall_forall. intros c Hin.
    destruct (isdigit c) eqn:Hc; [exfalso|reflexivity].
    apply in_split in Hin. destruct Hin as (pre & post & ->).
    destruct (match_numeral_digit post Hc) as [g0 Hg0].
    destruct (search_leftmost match_numeral pre (c :: post))
      as (? & ? & g & _ & _ & _ & Hs); congruence.
Qed.

Lemma search_head (m : str -> option str) (text g : str) :
  m text = Some g -> search m text = Some g.
Proof. intros H. destruct text; simpl; now rewrite H. Qed.

Lemma match_ws_numeral_skip (ws s : str) (d : char) :
  Forall blank ws -> digit d -> isspace d = false ->
  match_ws_numeral (ws ++ d :: s) = match_numeral (d :: s).
Proof.
  intros Hws Hdig Hd. destruct (match_numeral_digit s Hdig) as [g Hg].
  induction Hws as [|c ws Hc _ IH].
  - simpl. now rewrite Hd.
  - cbn [app match_ws_numeral]. now rewrite Hc, IH, Hg.
Qed.

(** X5: the amount after a leading primary symbol is the run of digits,
    extended by a decimal point and two digits when exactly that follows:
    further decimals are not read, and a point followed by fewer than two
    digits does not belong to the amount. *)
Theorem primary_amount_fraction (ws ds rest now : str) :
  (forall c, digit c -> isspace c = false) ->
  Forall blank ws -> Forall digit ds -> ds <> [] -> stops rest ->
  ExpenseDict.currency (parse (A := A) (RUPEE ++ ws ++ ds ++ rest) now)
  = Some RUPEE /\
  (forall a b tail,
      rest = DOT :: a :: b :: tail -> digit a -> digit b ->
      ExpenseDict.amount (parse (RUPEE ++ ws ++ ds ++ rest) now)
      = Some (float (ds ++ [DOT; a; b]) : A)) /\
  ((forall a b tail,
       rest = DOT :: a :: b :: tail -> ~ (digit a /\ digit b)) ->
   ExpenseDict.amount (parse (RUPEE ++ ws ++ ds ++ rest) now)
   = Some (float ds : A)).
Proof.
  intros Hdisj Hws Hds Hne Hstop.
  assert (Hm : match_symbol RUPEE (RUPEE ++ ws ++ ds ++ rest)
               = Some (ds ++ opt_fraction rest)).
  { unfold match_symbol. rewrite strip_prefix_app.
    destruct ds as [|d ds']; [now contradiction Hne|].
    inversion Hds as [|? ? Hd Hds']; subst.
    cbn [app]. rewrite (match_ws_numeral_skip _ Hws Hd (Hdisj d Hd)).
    unfold match_numeral.
    change (d :: ds' ++ rest) with ((d :: ds') ++ rest).
    now rewrite (span_digits_app rest Hds Hstop). }
  assert (Hs : search (match_symbol RUPEE) (RUPEE ++ ws ++ ds ++ rest)
               = Some (ds ++ opt_fraction rest)).
  { now apply search_head. }
  destruct (parse_rupee (A := A) _ now Hs) as [Hc Ha].
  split; [exact Hc|]. split.
  - intros a b tail -> Hda Hdb. rewrite Ha. simpl.
    unfold digit in Hda, Hdb. now rewrite Hda, Hdb.
  - intros Hnone. rewrite Ha.
    destruct (opt_fraction_spec rest)
      as [(a & b & tail & -> & Hda & Hdb & _)|Hf].
    + exfalso. now apply (Hnone a b tail eq_refl).
    + now rewrite Hf, app_nil_r.
Qed.
End ExtractorExtras.

(** ** Classifier *)

Section ClassifierExtras.
Import CategoryClassifierTool.
Context {U : Unicode}.

Lemma first_match_Some_inv (cats : list (str * list str)) (s c : str) :
  first_match cats s = Some c ->
  exists pre keywords post,
    cats = pre ++ (c, keywords) :: post /\ keyword_occurs keywords s.
Proof.
  induction cats as [|[c0 kws] cats IH]; simpl; [discriminate|].
  destruct (any_keyword kws s) eqn:E.
  - intros H; inversion H; subst c0. exists [], kws, cats.
    split; [reflexivity|]. now apply any_keyword_iff.
  - intros H. destruct (IH H) as (pre & keywords & post & -> & Hk).
    now exists ((c0, kws) :: pre), keywords, post.
Qed.

Lemma first_match_None_inv (cats : list (str * list str)) (s : str) :
  first_match cats s = None ->
  forall p, In p cats -> ~ keyword_occurs (snd p) s.
Proof.
  induction cats as [|[c0 kws] cats IH]; simpl; [intros _ p []|].
  destruct (any_keyword kws s) eqn:E; [discriminate|].
  intros H p [<-|Hp]; [now apply any_keyword_false|now apply IH].
Qed.

(** Only the catch-all category is called ['other'], and it has no
    keywords. *)
Lemma other_has_no_keywords (keywords : list str) :
  In (lit "other", keywords) categories -> keywords = [].
Proof.
  assert (H : forallb (fun p => negb (str_eqb (fst p) (lit "other"))
                                || match snd p with [] => true | _ => false end)
                      categories = true) by (vm_compute; reflexivity).
  rewrite forallb_forall in H. intros Hin. specialize (H _ Hin).
  cbn [fst snd] in H. rewrite str_eqb_refl in H. cbn [negb orb] in H.
  now destruct keywords.
Qed.

(** X6: [classify] returns ['other'] exactly for the descriptions in whose
    lower-cased text no keyword of any category occurs. *)
Theorem classify_other_iff (description : str) :
  classify description = lit "other" <->
  (forall p, In p categories -> ~ keyword_occurs (snd p) (lower description)).
Proof.
  unfold classify. split.
  - destruct (first_match categories (lower description)) as [c|] eqn:E.
    + intros ->. apply first_match_Some_inv in E.
      destruct E as (pre & keywords & post & Hcat & Hk).
      assert (Hin : In (lit "other", keywords) categories)
        by (rewrite Hcat; apply in_or_app; right; now left).
      apply other_has_no_keywords in Hin. subst keywords.
      destruct Hk as (kw & _ & _ & [] & _).
    + intros _. now apply first_match_None_inv.
  - intros H. now rewrite (first_match_none _ H).
Qed.

Lemma keyword_occurs_extend (keywords : list str) (a s b : str) :
  keyword_occurs keywords s -> keyword_occurs keywords (a ++ s ++ b).
Proof.
  intros (kw & pre & post & Hin & ->).
  exists kw, (a ++ pre), (post ++ b). split; [exact Hin|].
  now rewrite <- !app_assoc.
Qed.

Lemma first_match_no_later (pre post : list (str * list str))
      (c : str) (keywords : list str) (s : str) :
  keyword_occurs keywords s ->
  exists c', first_match (pre ++ (c, keywords) :: post) s = Some c' /\
             In c' (map fst pre ++ [c]).
Proof.
  intros Hk. induction pre as [|[c0 kws] pre IH]; simpl.
  - apply any_keyword_iff in Hk. rewrite Hk. exists c.
    split; [reflexivity|now left].
  - destruct (any_keyword kws s).
    + exists c0. split; [reflexivity|now left].
    + destruct IH as (c' & -> & Hin). exists c'. split; [reflexivity|].
      now right.
Qed.

(** X7: text added around a description never moves it to a category
    declared later: the category of the longer description is the one of
    the shorter or one declared before it. *)
Theorem classify_extension (description pre post : str) :
  (exists a b,
      lower (pre ++ description ++ post) = a ++ lower description ++ b) ->
  exists earlier later,
    labels = earlier ++ classify description :: later /\
    In (classify (pre ++ description ++ post))
       (earlier ++ [classify description]).
Proof.
  intros (a & b & Hlower). unfold classify. rewrite Hlower.
  destruct (first_match categories (lower description)) as [c|] eqn:E.
  - apply first_match_Some_inv in E.
    destruct E as (P & keywords & Q & Hcat & Hk).
    exists (map fst P), (map fst Q). split.
    + change labels with (map fst categories).
      now rewrite Hcat, map_app.
    + destruct (first_match_no_later P Q c (keyword_occurs_extend a b Hk))
        as (c' & Hc' & Hin).
      rewrite Hcat, Hc'. exact Hin.
  - exists (removelast labels), []. split; [reflexivity|].
    change (removelast labels ++ [lit "other"]) with labels.
    destruct (first_match categories (a ++ lower description ++ b)) eqn:E'.
    + apply first_match_In in E'. exact E'.
    + apply other_is_label.
Qed.
End ClassifierExtras.

(** ** Stages and their log *)

Section StoreExtras.
Context {X : Type}.

Lemma length_assign (h : Store.t X) (r : Store.ref) (l : list X) :
  length (Store.assign h r l) = length h.
Proof.
  revert r; induction h as [|c h IH]; intros r; simpl; [reflexivity|].
  destruct r; simpl; [reflexivity|]. now rewrite IH.
Qed.

Lemma deref_append (h : Store.t X) (r : Store.ref) (x : X) :
  r < length h ->
  Store.deref (Store.append h r x) r = Store.deref h r ++ [x].
Proof. intros H. unfold Store.append. now apply deref_assign. Qed.

Lemma length_append (h : Store.t X) (r : Store.ref) (x : X) :
  length (Store.append h r x) = length h.
Proof. apply length_assign. Qed.
End StoreExtras.

Section LoggedFacts.
Context {A : Type} {C : Clock}.

Lemma events_logged (logger : AgentLogger.t) (agent_name : str)
      (kind : event_type) (message : str) (data : event_data A)
      (w : World.t A) :
  AgentLogger.logs logger < length (World.store w) ->
  events logger (logged logger agent_name kind message data w)
  = events logger w
    ++ [Event.Build (isoformat_now (World.ticks w)) agent_name kind message
                    data].
Proof.
  intros H. unfold events, logged, AgentLogger.get_logs. cbn [World.store].
  now apply deref_append.
Qed.

Lemma length_store_logged (logger : AgentLogger.t) (agent_name : str)
      (kind : event_type) (message : str) (data : event_data A)
      (w : World.t A) :
  length (World.store (logged logger agent_name kind message data w))
  = length (World.store w).
Proof. apply length_append. Qed.
End LoggedFacts.

Section StageExtras.
Import ExpenseParserTool SessionState BudgetAnalyzerAgent.
Context {U : Unicode} {A : Type} {NA : Num A} {FA : FloatConv A} {C : Clock}.

(** The parser stage on a text that can be printed: two events around one
    read of the clock. *)
Lemma parser_returns (self : Agent.t) (raw_input : str) (w : World.t A) :
  encodable raw_input = true ->
  InputParserAgent.execute self raw_input w
  = (Return (parse raw_input (isoformat_now (S (World.ticks w)))),
     logged (Agent.logger self) (Agent.name self) success
            (lit "Successfully parsed expense")
            (ParsedData (parse raw_input (isoformat_now (S (World.ticks w)))))
            (ticked
               (logged (Agent.logger self) (Agent.name self) start
                       (lit "Parsing input: " ++ raw_input) NoData w))).
Proof.
  intros Hraw. unfold InputParserAgent.execute, tick. play. reflexivity.
Qed.

(** On a text that cannot be printed it raises once the start event is in
    the log. *)
Lemma parser_raises (self : Agent.t) (raw_input : str) (w : World.t A) :
  encodable raw_input = false ->
  InputParserAgent.execute self raw_input w
  = (Raise (UnicodeEncodeError
              (console_line start (Agent.name self)
                            (lit "Parsing input: " ++ raw_input))),
     logged (Agent.logger self) (Agent.name self) start
            (lit "Parsing input: " ++ raw_input) NoData w).
Proof.
  intros Hraw. unfold InputParserAgent.execute, bind.
  rewrite log_raises; [reflexivity|].
  now rewrite encodable_app, Hraw, andb_false_r.
Qed.

(** The parser stage returns what [parse] returns, with [parsed_at] read
    from the clock after the start event was logged; it appends a start and
    a success event, the latter carrying the parsed dict, and leaves the
    session as it was. *)
Lemma parser_stage (self : Agent.t) (raw_input : str) (w : World.t A) :
  encodable raw_input = true ->
  let parsed := parse raw_input (isoformat_now (S (World.ticks w))) in
  let w' := snd (InputParserAgent.execute self raw_input w) in
  fst (InputParserAgent.execute self raw_input w) = Return parsed /\
  World.session w' = World.session w /\
  World.ticks w' = World.ticks w + 3 /\
  (AgentLogger.logs (Agent.logger self) < length (World.store w) ->
   events (Agent.logger self) w'
   = events (Agent.logger self) w
     ++ [ Event.Build (isoformat_now (World.ticks w)) (Agent.name self) start
                      (lit "Parsing input: " ++ raw_input) NoData;
          Event.Build (isoformat_now (S (S (World.ticks w))))
                      (Agent.name self) success
                      (lit "Successfully parsed expense")
                      (ParsedData parsed) ]).
Proof.
  intros Hraw parsed w'. unfold w'. rewrite (parser_returns self raw_input w Hraw).
  split; [reflexivity|]. split; [reflexivity|].
  split; [cbn; lia|].
  intros H. cbn [snd].
  rewrite events_logged by (cbn; now rewrite length_append).
  unfold ticked at 1. unfold events at 1. cbn [World.store].
  fold (events (Agent.logger self)
               (logged (Agent.logger self) (Agent.name self) start
                       (lit "Parsing input: " ++ raw_input) NoData w)).
  rewrite events_logged by exact H. now rewrite <- app_assoc.
Qed.


Lemma execute_incomplete_world (self : Agent.t) (d : ExpenseDict.t A)
      (w : World.t A) (k : key) :
  first_missing d = Some k ->
  snd (execute self d w)
  = World.Build
      (Store.append
         (Store.append
            (World.store w) (AgentLogger.logs (Agent.logger self))
            (Event.Build (isoformat_now (World.ticks w)) (Agent.name self)
                         start (lit "Analyzing budget impact") NoData))
         (AgentLogger.logs (Agent.logger self))
         (Event.Build (isoformat_now (S (World.ticks w))) (Agent.name self)
                      error (lit "Analysis failed: " ++ str_exn (KeyError k))
                      NoData))
      (World.session w) (S (S (World.ticks w))).
Proof.
  destruct d as [[a|] [c|] [de|] [r|] [p|] [ca|]]; try discriminate;
    intros E; inversion E; subst k; unfold execute;
    cbn [ExpenseDict.amount ExpenseDict.currency ExpenseDict.description
         ExpenseDict.category ExpenseDict.parsed_at ExpenseDict.raw_input];
    play; reflexivity.
Qed.

(** X9: a call of the analyzer that fails on a missing key appends
    exactly two events to the log: its start event and an error event whose
    message ends in the quoted name of the first missing key. *)
Theorem analyzer_failure_events (self : Agent.t) (d : ExpenseDict.t A)
        (w : World.t A) (k : key) :
  first_missing d = Some k ->
  AgentLogger.logs (Agent.logger self) < length (World.store w) ->
  events (Agent.logger self) (snd (execute self d w))
  = events (Agent.logger self) w
    ++ [ Event.Build (isoformat_now (World.ticks w)) (Agent.name self) start
                     (lit "Analyzing budget impact") NoData;
         Event.Build (isoformat_now (S (World.ticks w))) (Agent.name self)
                     error
                     (lit "Analysis failed: '" ++ key_name k ++ lit "'")
                     NoData ].
Proof.
  intros Hk H. rewrite (execute_incomplete_world self d w Hk).
  unfold events, AgentLogger.get_logs. cbn [World.store].
  rewrite deref_append by (now rewrite length_append).
  rewrite deref_append by exact H.
  rewrite <- app_assoc. reflexivity.
Qed.

Lemma max_by_value_In (items : list (str * A)) (best : str * A) :
  In (max_by_value best items) (best :: items).
Proof.
  revert best; induction items as [|item items IH]; intros best; simpl.
  - now left.
  - destruct (IH (if gtb (snd item) (snd best) then item else best))
      as [H|H]; [|now right; right].
    rewrite <- H. destruct (gtb (snd item) (snd best)); auto.
Qed.

(** X10: the insights a successful call of the analyzer returns are those
    of the ledger after the append: the count is the old count plus one,
    the new record's category is a key of the breakdown, and the top
    category is an entry of the breakdown, so the [('none', 0)] branch is
    never taken there. *)
Theorem insights_after_append (self : Agent.t) (d : ExpenseDict.t A)
        (w : World.t A) :
  first_missing d = None ->
  exists r,
    fst (execute self d w) = Return r /\
    Result.insights r
    = _generate_insights (World.session (snd (execute self d w))) /\
    Insights.expense_count (Result.insights r)
    = get_expense_count (World.session w) + 1 /\
    In (Expense.category (Result.expense r))
       (map fst (Insights.category_breakdown (Result.insights r))) /\
    In (Insights.top_category (Result.insights r))
       (Insights.category_breakdown (Result.insights r)).
Proof.
  intros Hd.
  destruct (execute_complete self d w Hd) as (e & Hr & Hs & _ & _).
  eexists. split; [exact Hr|]. rewrite Hs. cbn [Result.insights Result.expense].
  split; [reflexivity|].
  assert (Hkey : In (Expense.category e)
                    (map fst (get_category_totals
                                (add_expense (World.session w) e)))).
  { unfold get_category_totals. fold (@tally A NA). rewrite tally_keys.
    right. cbn [expenses add_expense]. rewrite map_app.
    apply in_or_app. right. now left. }
  split; [|split; [exact Hkey|]].
  - unfold _generate_insights, get_expense_count. cbn [Insights.expense_count].
    cbn [expenses add_expense]. now rewrite length_app.
  - unfold _generate_insights.
    cbn [Insights.top_category Insights.category_breakdown].
    destruct (get_category_totals (add_expense (World.session w) e))
      as [|item items]; [destruct Hkey|].
    apply max_by_value_In.
Qed.
End StageExtras.

(** ** Pipeline and request boundary *)

Section PipelineExtras.
Import ExpenseParserTool SessionState BudgetAnalyzerAgent.
Import PersonalFinanceAgentSystem.
Context {U : Unicode} {A : Type} {NA : Num A} {FA : FloatConv A} {C : Clock}.

(** The six events of one call on the system [__init__] builds. *)
Lemma process_expense_log (raw_input : str) (w : World.t A) :
  encodable raw_input = true ->
  0 < length (World.store w) ->
  exists new,
    events (logger (the_system A)) (snd (process_expense (the_system A) raw_input w))
    = events (logger (the_system A)) w ++ new /\
    map (@headline A) new
    = [ (lit "InputParserAgent", start, lit "Parsing input: " ++ raw_input);
        (lit "InputParserAgent", success, lit "Successfully parsed expense");
        (lit "CategoryClassifierAgent", start,
         lit "Classifying: " ++ raw_input);
        (lit "CategoryClassifierAgent", success,
         lit "Classified as: " ++ CategoryClassifierTool.classify raw_input);
        (lit "BudgetAnalyzerAgent", start, lit "Analyzing budget impact");
        (lit "BudgetAnalyzerAgent", success, lit "Analysis complete") ] /\
    map (@Event.timestamp A) new
    = map isoformat_now
          [ World.ticks w; World.ticks w + 2; World.ticks w + 3;
            World.ticks w + 4; World.ticks w + 5; World.ticks w + 6 ] /\
    World.ticks (snd (process_expense (the_system A) raw_input w))
    = World.ticks w + 7 /\
    length (World.store (snd (process_expense (the_system A) raw_input w)))
    = length (World.store w).
Proof.
  intros Hraw H.
  pose proof (classify_encodable raw_input) as Hlabel.
  destruct (parse_shape (A := A) raw_input
                        (isoformat_now (S (World.ticks w))))
    as (a & c & E).
  unfold process_expense, InputParserAgent.execute,
    CategoryClassifierAgent.execute, execute, tick.
  play. cbn [logged World.ticks]. rewrite E.
  repeat first
    [ progress play
    | progress cbn [ExpenseDict.description ExpenseDict.set_category
                    ExpenseDict.amount ExpenseDict.currency
                    ExpenseDict.category ExpenseDict.parsed_at
                    ExpenseDict.raw_input] ].
  unfold logged.
  cbn [World.ticks World.session World.store fst snd].
  unfold events, AgentLogger.get_logs, Store.append, Store.deref.
  destruct (World.store w) as [|cell h]; [simpl in H; lia|].
  eexists. split; [|split; [|split; [|split]]].
  - cbn. rewrite <- !app_assoc. cbn [app]. reflexivity.
  - reflexivity.
  - cbn [map Event.timestamp]. now rewrite !Nat.add_succ_r, Nat.add_0_r.
  - cbn. lia.
  - reflexivity.
Qed.



Lemma stored_fields (e : Expense.t A) (category text now : str) :
  fields_of e = ExpenseDict.set_category category (parse text now) ->
  Expense.description e = text /\ Expense.raw_input e = text /\
  Expense.category e = category /\ Expense.timestamp e = now /\
  Some (Expense.amount e) = ExpenseDict.amount (parse text now) /\
  Some (Expense.currency e) = ExpenseDict.currency (parse (A := A) text now).
Proof.
  destruct (parse_shape (A := A) text now) as (a & c & ->).
  unfold fields_of, ExpenseDict.set_category. simpl.
  intros H. inversion H. now repeat split.
Qed.



End PipelineExtras.

(** ** Sample runs of the further properties *)

Section FurtherSampleRuns.
Import ExpenseParserTool CategoryClassifierTool SessionState.
Import BudgetAnalyzerAgent PersonalFinanceAgentSystem.

Lemma search_None_not_occurs (sym text : str) :
  search (match_symbol (U := Latin.unicode) sym) text = None ->
  ~ occurs_before_number (U := Latin.unicode) sym text.
Proof.
  intros H (pre & ws & d & post & -> & Hws & Hd).
  destruct (match_symbol_complete sym post Hws Hd) as [g Hg].
  destruct (search_leftmost (match_symbol sym) pre (sym ++ ws ++ d :: post))
    as (? & ? & g' & _ & _ & _ & Hs); congruence.
Qed.

Lemma latin_digit_not_space (c : char) :
  digit (U := Latin.unicode) c -> isspace (Unicode := Latin.unicode) c = false.
Proof.
  unfold digit. simpl. unfold Latin.ascii_digit, Latin.whitespace.
  rewrite andb_true_iff, !N.leb_le. intros [Hlo Hhi].
  unfold Latin.WHITESPACE. cbn [existsb].
  repeat match goal with
         | |- context [N.eqb c ?k] =>
             replace (N.eqb c k) with false
               by (symmetry; apply N.eqb_neq; lia)
         end.
  reflexivity.
Qed.

(** X3, witness: the dollar amount wins over the numeral before it. *)
Lemma parse_secondary_symbol_witness :
  exists pre' ws' g post',
    Samples.coffees = pre' ++ DOLLAR ++ ws' ++ g ++ post' /\
    length pre' <= length (lit "2 coffees ") /\
    Forall (blank (U := Latin.unicode)) ws' /\
    greedy_numeral (U := Latin.unicode) g post' /\
    ExpenseDict.currency (parse (A := Z) Samples.coffees []) = Some DOLLAR /\
    ExpenseDict.amount (parse Samples.coffees []) = Some (float g : Z).
Proof.
  apply (@parse_secondary_symbol Latin.unicode Z Hundredths.num
           Hundredths.conv Samples.coffees (lit "2 coffees ") [] [] 53%N []).
  - apply search_None_not_occurs. reflexivity.
  - reflexivity.
  - constructor.
  - reflexivity.
Defined.

(** X4, witness: the numeral is read, the dollar sign is not. *)
Lemma parse_bare_numeral_witness :
  exists pre g post,
    Samples.cafe = pre ++ g ++ post /\
    no_digit (U := Latin.unicode) pre /\
    greedy_numeral (U := Latin.unicode) g post /\
    ExpenseDict.currency (parse (A := Z) Samples.cafe []) = Some RUPEE /\
    ExpenseDict.amount (parse Samples.cafe []) = Some (float g : Z).
Proof.
  apply (@parse_bare_numeral Latin.unicode Z Hundredths.num Hundredths.conv
           Samples.cafe []).
  - apply search_None_not_occurs. reflexivity.
  - apply search_None_not_occurs. reflexivity.
  - intros H. unfold no_digit in H. rewrite Forall_forall in H.
    specialize (H 52%N). vm_compute in H.
    assert (E : true = false) by (apply H; tauto). discriminate E.
Defined.

(** X5, witness: of [12.345] the amount is [12.34]. *)
Lemma primary_amount_fraction_witness :
  ExpenseDict.amount (parse Samples.three_decimals [])
  = Some (float (lit "12.34") : Z).
Proof.
  destruct (@primary_amount_fraction Latin.unicode Z Hundredths.num
              Hundredths.conv (lit " ") (lit "12") (lit ".345") []
              latin_digit_not_space)
    as (_ & Hfrac & _).
  - repeat constructor.
  - repeat constructor.
  - discriminate.
  - reflexivity.
  - apply (Hfrac 51%N 52%N (lit "5")); reflexivity.
Defined.

(** X7, witness: a taxi ride becomes food once lunch is mentioned. *)
Lemma classify_extension_witness :
  exists earlier later,
    labels = earlier ++ classify Samples.taxi :: later /\
    In (classify (Samples.lunch_then ++ Samples.taxi ++ Samples.home))
       (earlier ++ [classify Samples.taxi]).
Proof.
  apply (@classify_extension Latin.unicode).
  exists (lit "lunch then "), (lit " home"). reflexivity.
Defined.

(** X9, witness: the candidate without a category, on the sample world. *)
Lemma analyzer_failure_events_witness :
  events (Agent.logger (analyzer_agent Demo.system))
         (snd (execute (analyzer_agent Demo.system) Demo.unclassified
                       Demo.world2))
  = events (Agent.logger (analyzer_agent Demo.system)) Demo.world2
    ++ [ Event.Build (isoformat_now (World.ticks Demo.world2))
                     (Agent.name (analyzer_agent Demo.system)) start
                     (lit "Analyzing budget impact") NoData;
         Event.Build (isoformat_now (S (World.ticks Demo.world2)))
                     (Agent.name (analyzer_agent Demo.system)) error
                     (lit "Analysis failed: '" ++ key_name k_category
                      ++ lit "'")
                     NoData ].
Proof.
  apply (@analyzer_failure_events Z Hundredths.num Counter.clock
           (analyzer_agent Demo.system) Demo.unclassified Demo.world2
           k_category).
  - reflexivity.
  - vm_compute. apply le_n.
Defined.

(** X10, witness: the complete candidate, on the sample world. *)
Lemma insights_after_append_witness :
  exists r,
    fst (execute (analyzer_agent Demo.system) Demo.classified Demo.world2)
    = Return r /\
    Result.insights r
    = _generate_insights
        (World.session
           (snd (execute (analyzer_agent Demo.system) Demo.classified
                         Demo.world2))) /\
    Insights.expense_count (Result.insights r)
    = get_expense_count (World.session Demo.world2) + 1 /\
    In (Expense.category (Result.expense r))
       (map fst (Insights.category_breakdown (Result.insights r))) /\
    In (Insights.top_category (Result.insights r))
       (Insights.category_breakdown (Result.insights r)).
Proof.
  apply (@insights_after_append Z Hundredths.num Counter.clock
           (analyzer_agent Demo.system) Demo.classified Demo.world2).
  reflexivity.
Defined.

(** A text with a lone surrogate on the sample system: the call raises at
    the banner, the world stays as it was, and the error reads as the
    interpreter prints it. *)
Example lone_surrogate_raises :
  process_expense Demo.system Samples.lone_surrogate Demo.world2
  = (Raise (UnicodeEncodeError (banner Samples.lone_surrogate)),
     Demo.world2) /\
  str_exn (UnicodeEncodeError (banner Samples.lone_surrogate))
  = lit "'utf-8' codec can't encode character '\ud800' in position 19: surrogates not allowed" /\
  str_exn (UnicodeEncodeError (lit "a" ++ [56448; 57343]%N ++ lit "b"))
  = lit "'utf-8' codec can't encode characters in position 1-2: surrogates not allowed".
Proof. vm_compute. repeat split. Qed.


End FurtherSampleRuns.
